(** * SpatialBench on Milvus: the query implementations of
    [spatialbench-queries/milvus_queries.py], embedded and verified.

    Conventions of the embedding.
    - A Python [float] is a rational [Q]; the one non-number the code
      manufactures itself, [np.nan], is the constructor [NaN] of [pyfloat].
    - A row ([dict]) fetched from a collection is a record with the fields of
      the collection's schema; geometry columns hold WKT text.
    - The libraries the module calls (shapely, pandas' calendar functions,
      the process environment, the Milvus server) are interfaces: type
      classes whose methods carry the names used in the source.
    - A query is a computation in [IO]: it threads the chronological list of
      client events (connect, query, close) and ends in a value or in a
      raised exception. *)

From Stdlib Require Import List ZArith QArith Qminmax String Ascii Bool Lia.
From Stdlib Require Import Permutation Sorted.
Import ListNotations.

Local Open Scope string_scope.
Local Open Scope list_scope.
Local Open Scope Z_scope.

(** ** Scalars and the comparator of [DataFrame.sort_values] *)

Inductive pyfloat : Type :=
| Fin (q : Q)
| NaN.

Inductive scalar : Type :=
| SInt (z : Z)
| SFloat (f : pyfloat).

Definition isna (s : scalar) : bool :=
  match s with
  | SFloat NaN => true
  | _ => false
  end.

(** The number a non-missing scalar stands for. *)
Definition number (s : scalar) : option Q :=
  match s with
  | SInt z => Some (inject_Z z)
  | SFloat (Fin q) => Some q
  | SFloat NaN => None
  end.

(** One sort key: missing values go last whatever the direction
    ([na_position="last"], pandas' default). *)
Definition key_compare (ascending : bool) (a b : scalar) : comparison :=
  match number a, number b with
  | None, None => Eq
  | None, Some _ => Gt
  | Some _, None => Lt
  | Some x, Some y => if ascending then (x ?= y)%Q else (y ?= x)%Q
  end.

Record sortkey (R : Type) : Type := by_ {
  column : R -> scalar;
  ascending : bool
}.
Arguments by_ {R} column ascending.
Arguments column {R} s.
Arguments ascending {R} s.

(** Several keys compare lexicographically, first key first. *)
Fixpoint rows_compare {R : Type} (by_keys : list (sortkey R)) (a b : R)
  : comparison :=
  match by_keys with
  | [] => Eq
  | k :: ks =>
      match key_compare (ascending k) (column k a) (column k b) with
      | Eq => rows_compare ks a b
      | c => c
      end
  end.

Definition row_le {R : Type} (by_keys : list (sortkey R)) (a b : R) : Prop :=
  rows_compare by_keys a b <> Gt.

Fixpoint insert_row {R : Type} (by_keys : list (sortkey R)) (x : R)
  (l : list R) : list R :=
  match l with
  | [] => [x]
  | y :: l' =>
      match rows_compare by_keys x y with
      | Gt => y :: insert_row by_keys x l'
      | _ => x :: l
      end
  end.

(** [df.sort_values(by, ascending=...)], as a stable sort of the rows. *)
Definition sort_values {R : Type} (by_keys : list (sortkey R)) (rows : list R)
  : list R :=
  fold_right (insert_row by_keys) [] rows.

(** ** Data frames *)

Record DataFrame (R : Type) : Type := mkDataFrame {
  columns : list string;
  data : list R
}.
Arguments mkDataFrame {R} columns data.
Arguments columns {R} d.
Arguments data {R} d.

(** [pd.DataFrame(columns=[...])]. *)
Definition DataFrame_columns {R : Type} (cols : list string) : DataFrame R :=
  mkDataFrame cols [].

(** [pd.DataFrame(results)] for a list of dicts that all have the keys
    [keys], in that order: no dict, no column. *)
Definition DataFrame_records {R : Type} (keys : list string) (results : list R)
  : DataFrame R :=
  match results with
  | [] => mkDataFrame [] []
  | _ => mkDataFrame keys results
  end.

(** [df.empty]. *)
Definition empty {R : Type} (df : DataFrame R) : bool :=
  match columns df, data df with
  | [], _ => true
  | _, [] => true
  | _, _ => false
  end.

(** A frame is well formed for a schema when it carries exactly its columns. *)
Definition has_schema {R : Type} (schema : list string) (df : DataFrame R)
  : Prop :=
  columns df = schema.

(** [Series.mean()]: [NaN] on no value. *)
Definition Qsum (l : list Q) : Q := fold_right Qplus 0%Q l.

Definition mean (l : list Q) : pyfloat :=
  match l with
  | [] => NaN
  | _ => Fin (Qsum l / inject_Z (Z.of_nat (List.length l)))%Q
  end.

Definition len {A : Type} (l : list A) : Z := Z.of_nat (List.length l).

(** The values of a float column that are present. *)
Definition dropna (l : list pyfloat) : list Q :=
  flat_map (fun f => match f with Fin q => [q] | NaN => [] end) l.

(** [Series.mean()] on a column that may hold [NaN]: missing values are
    skipped ([skipna=True]), and the mean of none is [NaN]. *)
Definition nanmean (l : list pyfloat) : pyfloat := mean (dropna l).

(** ** Exceptions, client events and the [IO] monad *)

(** The one exception the queries raise themselves. What pymilvus, shapely
    and pandas raise on a server that does not answer, or on a text that is
    neither WKT nor a timestamp, lies outside this model: the classes below
    give their operations as total functions, on the rows that the loader
    stores. *)
Inductive exn : Type :=
| NotImplementedError (msg : string).

Inductive outcome (A : Type) : Type :=
| Return (a : A)
| Raise (e : exn).
Arguments Return {A} a.
Arguments Raise {A} e.

Inductive event : Type :=
| Connect (uri : string)
| Query (collection_name filter : string) (output_fields : list string)
    (limit : Z)
| Close.

Definition IO (A : Type) : Type := list event -> outcome A * list event.

Definition ret {A : Type} (a : A) : IO A := fun tr => (Return a, tr).

Definition raise {A : Type} (e : exn) : IO A := fun tr => (Raise e, tr).

Definition bind {A B : Type} (m : IO A) (k : A -> IO B) : IO B :=
  fun tr =>
    match m tr with
    | (Return a, tr') => k a tr'
    | (Raise e, tr') => (Raise e, tr')
    end.

Definition emit (e : event) : IO unit := fun tr => (Return tt, tr ++ [e]).

(** [try: body finally: cleanup]. *)
Definition try_finally {A : Type} (body : IO A) (cleanup : IO unit) : IO A :=
  fun tr =>
    match body tr with
    | (r, tr') =>
        match cleanup tr' with
        | (Return _, tr'') => (r, tr'')
        | (Raise e, tr'') => (Raise e, tr'')
        end
    end.

Notation "x <- m ;; k" := (bind m (fun x => k))
  (at level 61, m at next level, right associativity).

(** Running a query from a fresh process: its outcome and what it did. *)
Definition result {A : Type} (m : IO A) : outcome A := fst (m []).
Definition trace {A : Type} (m : IO A) : list event := snd (m []).

Definition is_query (e : event) : bool :=
  match e with
  | Query _ _ _ _ => true
  | _ => false
  end.

(** The backend fetches a computation performed. *)
Definition fetches {A : Type} (m : IO A) : list event :=
  filter is_query (trace m).

(** [needle in haystack] on strings. *)
Fixpoint is_infix (needle haystack : string) : bool :=
  String.prefix needle haystack
  || match haystack with
     | EmptyString => false
     | String _ rest => is_infix needle rest
     end.

(** ** The collections and the libraries behind the queries *)

(** Rows of the collections, with the fields of the loader's schemas that
    the queries read. Timestamps are stored as text, geometries as WKT. *)
Record Trip : Type := mkTrip {
  t_tripkey : Z;
  t_pickuptime : string;
  t_dropofftime : string;
  t_pickuploc : string;
  t_dropoffloc : string;
  t_distance : Q;
  t_fare : Q;
  t_tip : Q;
  t_totalamount : Q
}.

Record Zone : Type := mkZone {
  z_zonekey : Z;
  z_name : string;
  z_boundary : string
}.

Record Building : Type := mkBuilding {
  b_buildingkey : Z;
  b_name : string;
  b_boundary : string
}.

(** shapely: [shapely.wkt.loads], [Point(x, y)], and the methods the queries
    call on geometries. *)
Class Shapely : Type := {
  geom : Type;
  loads : string -> geom;
  Point : Q -> Q -> geom;
  geom_x : geom -> Q;
  geom_y : geom -> Q;
  distance : geom -> geom -> Q;
  contains : geom -> geom -> bool;
  intersects : geom -> geom -> bool;
  intersection : geom -> geom -> geom;
  area : geom -> Q
}.

(** pandas' calendar: [pd.to_datetime] (nanoseconds since the epoch, or
    [None] for [NaT], the missing time that the empty text and the text
    "NaT" read as) and [.dt.to_period("M").dt.to_timestamp()] on a time
    that is present (the first instant of its month). *)
Class Calendar : Type := {
  to_datetime : string -> option Z;
  month_start : Z -> Z
}.

(** [os.environ.get]. *)
Class Environ : Type := {
  environ_get : string -> option string
}.

(** What [MilvusClient.query] answers for a collection name, a filter
    expression and a limit, per table: the Milvus server. *)
Class Milvus : Type := {
  query_trip : string -> string -> Z -> list Trip;
  query_zone : string -> string -> Z -> list Zone;
  query_building : string -> string -> Z -> list Building
}.

Definition COLLECTION_PREFIX : string := "spatialbench".

Definition SUPPORTED_QUERIES : list string :=
  ["q1"; "q2"; "q3"; "q4"; "q6"; "q8"; "q9"; "q10"; "q11"].

Definition UNSUPPORTED_QUERIES : list string := ["q5"; "q7"; "q12"].

Record MilvusQueryRunner : Type := mkRunner {
  uri : string;
  prefix : string;
  client : bool  (* [self.client is not None] *)
}.

Definition connect (self : MilvusQueryRunner) : IO MilvusQueryRunner :=
  _ <- emit (Connect (uri self));;
  ret (mkRunner (uri self) (prefix self) true).

Definition disconnect (self : MilvusQueryRunner) : IO unit :=
  if client self then emit Close else ret tt.

Definition _collection_name (self : MilvusQueryRunner) (table : string)
  : string :=
  (prefix self ++ "_" ++ table)%string.

Definition environ_get_default `{Environ} (name default : string) : string :=
  match environ_get name with
  | Some v => v
  | None => default
  end.

(** ** Result rows: one record per query, with its column list ([schema])
    and, for sorted results, the keys and directions given to
    [sort_values] ([order]) *)

Module R1.
Record row : Type := mk {
  t_tripkey : Z;
  pickup_lon : Q;
  pickup_lat : Q;
  t_pickuptime : string;
  distance_to_center : Q
}.
Definition schema : list string :=
  ["t_tripkey"; "pickup_lon"; "pickup_lat"; "t_pickuptime";
   "distance_to_center"].
Definition order : list (sortkey row) :=
  [by_ (fun r => SFloat (Fin (distance_to_center r))) true;
   by_ (fun r => SInt (t_tripkey r)) true].
End R1.

Module R2.
Record row : Type := mk { trip_count_in_coconino_county : Z }.
Definition schema : list string := ["trip_count_in_coconino_county"].
End R2.

Module R3.
Record row : Type := mk {
  pickup_month : Z;
  total_trips : Z;
  avg_distance : pyfloat;
  avg_duration : pyfloat;
  avg_fare : pyfloat
}.
Definition schema : list string :=
  ["pickup_month"; "total_trips"; "avg_distance"; "avg_duration"; "avg_fare"].
Definition order : list (sortkey row) :=
  [by_ (fun r => SInt (pickup_month r)) true].
End R3.

Module R4.
Record row : Type := mk {
  z_zonekey : Z;
  z_name : string;
  trip_count : Z
}.
Definition schema : list string := ["z_zonekey"; "z_name"; "trip_count"].
Definition order : list (sortkey row) :=
  [by_ (fun r => SInt (trip_count r)) false;
   by_ (fun r => SInt (z_zonekey r)) true].
End R4.

Module R6.
Record row : Type := mk {
  z_zonekey : Z;
  z_name : string;
  total_pickups : Z;
  avg_distance : pyfloat;
  avg_duration : pyfloat
}.
Definition schema : list string :=
  ["z_zonekey"; "z_name"; "total_pickups"; "avg_distance"; "avg_duration"].
Definition order : list (sortkey row) :=
  [by_ (fun r => SInt (total_pickups r)) false;
   by_ (fun r => SInt (z_zonekey r)) true].
End R6.

Module R8.
Record row : Type := mk {
  b_buildingkey : Z;
  b_name : string;
  nearby_pickup_count : Z
}.
Definition schema : list string :=
  ["b_buildingkey"; "b_name"; "nearby_pickup_count"].
Definition order : list (sortkey row) :=
  [by_ (fun r => SInt (nearby_pickup_count r)) false;
   by_ (fun r => SInt (b_buildingkey r)) true].
End R8.

Module R9.
Record row : Type := mk {
  building_1 : Z;
  building_2 : Z;
  area1 : Q;
  area2 : Q;
  overlap_area : Q;
  iou : Q
}.
Definition schema : list string :=
  ["building_1"; "building_2"; "area1"; "area2"; "overlap_area"; "iou"].
Definition order : list (sortkey row) :=
  [by_ (fun r => SFloat (Fin (iou r))) false;
   by_ (fun r => SInt (building_1 r)) true;
   by_ (fun r => SInt (building_2 r)) true].
End R9.

Module R10.
Record row : Type := mk {
  z_zonekey : Z;
  pickup_zone : string;
  avg_duration : pyfloat;
  avg_distance : pyfloat;
  num_trips : Z
}.
Definition schema : list string :=
  ["z_zonekey"; "pickup_zone"; "avg_duration"; "avg_distance"; "num_trips"].
Definition order : list (sortkey row) :=
  [by_ (fun r => SFloat (avg_duration r)) false;
   by_ (fun r => SInt (z_zonekey r)) true].
End R10.

Module R11.
Record row : Type := mk { cross_zone_trip_count : Z }.
Definition schema : list string := ["cross_zone_trip_count"].
End R11.

Section Queries.

Context `{Shapely} `{Calendar} `{Environ} `{Milvus}.

(** [_query], at each of the three tables the queries read. *)
Definition _query_trip (self : MilvusQueryRunner) (filter_expr : string)
  (output_fields : list string) (limit : Z) : IO (list Trip) :=
  _ <- emit (Query (_collection_name self "trip") filter_expr output_fields
               limit);;
  ret (query_trip (_collection_name self "trip") filter_expr limit).

Definition _query_zone (self : MilvusQueryRunner) (filter_expr : string)
  (output_fields : list string) (limit : Z) : IO (list Zone) :=
  _ <- emit (Query (_collection_name self "zone") filter_expr output_fields
               limit);;
  ret (query_zone (_collection_name self "zone") filter_expr limit).

Definition _query_building (self : MilvusQueryRunner) (filter_expr : string)
  (output_fields : list string) (limit : Z) : IO (list Building) :=
  _ <- emit (Query (_collection_name self "building") filter_expr
               output_fields limit);;
  ret (query_building (_collection_name self "building") filter_expr limit).

Definition _get_runner : IO MilvusQueryRunner :=
  let uri := environ_get_default "MILVUS_URI" "http://localhost:19530" in
  let prefix := environ_get_default "MILVUS_PREFIX" COLLECTION_PREFIX in
  connect (mkRunner uri prefix false).

(** [runner = _get_runner(...); try: body(runner) finally: runner.disconnect()] *)
Definition with_runner {A : Type} (body : MilvusQueryRunner -> IO A) : IO A :=
  runner <- _get_runner;;
  try_finally (body runner) (disconnect runner).

(** [(dropoff - pickup).dt.total_seconds()] *)
Definition total_seconds (nanoseconds : Z) : Q :=
  (inject_Z nanoseconds / 1000000000)%Q.

(** The duration is missing as soon as one of the two times is. *)
Definition duration_seconds (t : Trip) : pyfloat :=
  match to_datetime (t_dropofftime t), to_datetime (t_pickuptime t) with
  | Some dropoff, Some pickup => Fin (total_seconds (dropoff - pickup))
  | _, _ => NaN
  end.

(** *** Q1: trips starting within 50km of Sedona city center *)

Definition q1_row (center : geom) (t : Trip) : R1.row :=
  let pickup_geom := loads (t_pickuploc t) in
  R1.mk (t_tripkey t) (geom_x pickup_geom) (geom_y pickup_geom)
    (t_pickuptime t) (distance pickup_geom center).

Definition q1 : IO (DataFrame R1.row) :=
  with_runner (fun runner =>
    let filter_expr :=
      "GEOM_DWITHIN(t_pickuploc, 'POINT(-111.7610 34.8697)', 0.45)" in
    results <- _query_trip runner filter_expr
                 ["t_tripkey"; "t_pickuploc"; "t_pickuptime"] 1000000;;
    match results with
    | [] => ret (DataFrame_columns R1.schema)
    | _ =>
        let center := Point (-1117610 # 10000) (348697 # 10000) in
        let df := map (q1_row center) results in
        ret (mkDataFrame R1.schema (sort_values R1.order df))
    end).

(** *** Q2: count of trips starting within Coconino County *)

Definition q2 : IO (DataFrame R2.row) :=
  with_runner (fun runner =>
    zone_results <- _query_zone runner "z_name == 'Coconino County'"
                      ["z_boundary"] 1;;
    match zone_results with
    | [] => ret (mkDataFrame R2.schema [R2.mk 0])
    | zone0 :: _ =>
        let county_wkt := z_boundary zone0 in
        let filter_expr :=
          ("GEOM_INTERSECTS(t_pickuploc, '" ++ county_wkt ++ "')")%string in
        results <- _query_trip runner filter_expr ["t_tripkey"] 10000000;;
        let count := len results in
        ret (mkDataFrame R2.schema [R2.mk count])
    end).

(** *** Q3: monthly trip statistics around Sedona *)

(** The group keys of [groupby] (default [sort=True]): ascending, once each. *)
Fixpoint insert_key (k : Z) (ks : list Z) : list Z :=
  match ks with
  | [] => [k]
  | k' :: rest =>
      if k <? k' then k :: ks
      else if k =? k' then ks
      else k' :: insert_key k rest
  end.

Definition group_keys (ks : list Z) : list Z := fold_right insert_key [] ks.

(** The keys that are present. *)
Definition present_keys (ks : list (option Z)) : list Z :=
  flat_map (fun k => match k with Some z => [z] | None => [] end) ks.

Definition has_key {A : Type} (key : A -> option Z) (k : Z) (r : A) : bool :=
  match key r with
  | Some k' => k' =? k
  | None => false
  end.

(** [df.groupby(key)]: rows whose key is missing belong to no group
    (default [dropna=True]). *)
Definition groupby {A : Type} (key : A -> option Z) (rows : list A)
  : list (Z * list A) :=
  map (fun k => (k, filter (has_key key k) rows))
    (group_keys (present_keys (map key rows))).

Definition q3_month (t : Trip) : option Z :=
  option_map month_start (to_datetime (t_pickuptime t)).

Definition q3_agg (g : Z * list Trip) : R3.row :=
  let (pickup_month, trips) := g in
  R3.mk pickup_month (len trips) (mean (map t_distance trips))
    (nanmean (map duration_seconds trips)) (mean (map t_fare trips)).

Definition q3 : IO (DataFrame R3.row) :=
  with_runner (fun runner =>
    let box_wkt :=
      "POLYGON((-111.9060 34.7347, -111.6160 34.7347, -111.6160 35.0047, -111.9060 35.0047, -111.9060 34.7347))" in
    let filter_expr :=
      ("GEOM_DWITHIN(t_pickuploc, '" ++ box_wkt ++ "', 0.045)")%string in
    results <- _query_trip runner filter_expr
                 ["t_tripkey"; "t_pickuptime"; "t_dropofftime"; "t_distance";
                  "t_fare"] 10000000;;
    match results with
    | [] => ret (DataFrame_columns R3.schema)
    | _ =>
        let agg := map q3_agg (groupby q3_month results) in
        ret (mkDataFrame R3.schema (sort_values R3.order agg))
    end).

(** [df.sort_values(...)] on a frame: the columns stay, the rows are sorted. *)
Definition df_sort_values {R : Type} (by_keys : list (sortkey R))
  (df : DataFrame R) : DataFrame R :=
  mkDataFrame (columns df) (sort_values by_keys (data df)).

(** [x > 0] and [x <= y] on floats. *)
Definition Qgtb (x y : Q) : bool := negb (Qle_bool x y).

(** *** Q4: zone distribution of the top 1000 trips by tip *)

Definition q4_order : list (sortkey Trip) :=
  [by_ (fun t => SFloat (Fin (t_tip t))) false;
   by_ (fun t => SInt (t_tripkey t)) true].

Definition q4_top_trips (trip_df : list Trip) : list Trip :=
  firstn 1000 (sort_values q4_order trip_df).

Definition pickup_geom (t : Trip) : geom := loads (t_pickuploc t).
Definition dropoff_geom (t : Trip) : geom := loads (t_dropoffloc t).
Definition zone_geom (z : Zone) : geom := loads (z_boundary z).
Definition boundary_geom (b : Building) : geom := loads (b_boundary b).

Definition q4_count (top_trips : list Trip) (zone_row : Zone) : Z :=
  len (filter (fun pt => contains (zone_geom zone_row) pt)
         (map pickup_geom top_trips)).

Definition q4_join (top_trips : list Trip) (zone_df : list Zone)
  : list R4.row :=
  flat_map (fun zone_row =>
    let count := q4_count top_trips zone_row in
    if 0 <? count
    then [R4.mk (z_zonekey zone_row) (z_name zone_row) count]
    else []) zone_df.

Definition q4 : IO (DataFrame R4.row) :=
  with_runner (fun runner =>
    trip_results <- _query_trip runner ""
                      ["t_tripkey"; "t_pickuploc"; "t_tip"] 10000000;;
    match trip_results with
    | [] => ret (DataFrame_columns R4.schema)
    | _ =>
        let top_trips := q4_top_trips trip_results in
        zone_results <- _query_zone runner ""
                          ["z_zonekey"; "z_name"; "z_boundary"] 100000;;
        match zone_results with
        | [] => ret (DataFrame_columns R4.schema)
        | _ =>
            let result_df :=
              DataFrame_records R4.schema (q4_join top_trips zone_results) in
            if empty result_df then ret (DataFrame_columns R4.schema)
            else ret (df_sort_values R4.order result_df)
        end
    end).

(** *** Q6: zone statistics for trips intersecting a bounding box *)

Definition q6_trip_fields : list string :=
  ["t_tripkey"; "t_pickuploc"; "t_pickuptime"; "t_dropofftime";
   "t_totalamount"; "t_distance"].

(** The columns of [trip_df] once the pickup geometry is added. *)
Definition q6_trip_columns : list string := q6_trip_fields ++ ["pickup_geom"].

Definition in_columns (name : string) (cols : list string) : bool :=
  existsb (String.eqb name) cols.

(** [matching_trips[name]] for the numeric columns of a trip. *)
Definition numeric_column (name : string) (t : Trip) : Q :=
  if (name =? "t_totalamount")%string then t_totalamount t
  else if (name =? "t_distance")%string then t_distance t
  else if (name =? "t_fare")%string then t_fare t
  else t_tip t.

Definition matching_trips (trip_df : list Trip) (zone_row : Zone) : list Trip :=
  filter (fun t => contains (zone_geom zone_row) (pickup_geom t)) trip_df.

Definition q6_join (trip_df : list Trip) (zone_df : list Zone) : list R6.row :=
  flat_map (fun zone_row =>
    let matching := matching_trips trip_df zone_row in
    if 0 <? len matching then
      let dist_col :=
        if in_columns "t_totalamount" q6_trip_columns
        then "t_totalamount" else "t_distance" in
      let avg_dist :=
        if in_columns dist_col q6_trip_columns
        then mean (map (numeric_column dist_col) matching) else NaN in
      let durations := map duration_seconds matching in
      [R6.mk (z_zonekey zone_row) (z_name zone_row) (len matching) avg_dist
         (nanmean durations)]
    else []) zone_df.

Definition q6 : IO (DataFrame R6.row) :=
  with_runner (fun runner =>
    let bbox_wkt :=
      "POLYGON((-112.2110 34.4197, -111.3110 34.4197, -111.3110 35.3197, -112.2110 35.3197, -112.2110 34.4197))" in
    let filter_expr :=
      ("GEOM_INTERSECTS(z_boundary, '" ++ bbox_wkt ++ "')")%string in
    zone_results <- _query_zone runner filter_expr
                      ["z_zonekey"; "z_name"; "z_boundary"] 100000;;
    match zone_results with
    | [] => ret (DataFrame_columns R6.schema)
    | _ =>
        trip_results <- _query_trip runner "" q6_trip_fields 10000000;;
        match trip_results with
        | [] => ret (DataFrame_columns R6.schema)
        | _ =>
            let result_df :=
              DataFrame_records R6.schema (q6_join trip_results zone_results) in
            if empty result_df then ret (DataFrame_columns R6.schema)
            else ret (df_sort_values R6.order result_df)
        end
    end).

(** *** Q8: nearby pickups per building *)

Definition q8_threshold : Q := 45 # 10000.

Definition q8_join (trip_df : list Trip) (building_df : list Building)
  : list R8.row :=
  flat_map (fun building_row =>
    let count :=
      len (filter (fun pt =>
                     Qle_bool (distance pt (boundary_geom building_row))
                       q8_threshold)
             (map pickup_geom trip_df)) in
    if 0 <? count
    then [R8.mk (b_buildingkey building_row) (b_name building_row) count]
    else []) building_df.

Definition q8 : IO (DataFrame R8.row) :=
  with_runner (fun runner =>
    building_results <- _query_building runner ""
                          ["b_buildingkey"; "b_name"; "b_boundary"] 1000000;;
    match building_results with
    | [] => ret (DataFrame_columns R8.schema)
    | _ =>
        trip_results <- _query_trip runner "" ["t_tripkey"; "t_pickuploc"]
                          10000000;;
        match trip_results with
        | [] => ret (DataFrame_columns R8.schema)
        | _ =>
            let result_df :=
              DataFrame_records R8.schema
                (q8_join trip_results building_results) in
            if empty result_df then ret (DataFrame_columns R8.schema)
            else ret (df_sort_values R8.order result_df)
        end
    end).

(** *** Q9: building conflation via IoU *)

(** The three-way branch on the union area. *)
Definition q9_iou (overlap_area union_area : Q) : Q :=
  if Qgtb union_area 0 then (overlap_area / union_area)%Q
  else if Qgtb overlap_area 0 then 1%Q
  else 0%Q.

(** The body of the inner loop for [b1 = buildings[i]], [b2 = buildings[j]]. *)
Definition q9_pair (b1 b2 : Building) : list R9.row :=
  let geom1 := boundary_geom b1 in
  let geom2 := boundary_geom b2 in
  if intersects geom1 geom2 then
    let area1 := area geom1 in
    let area2 := area geom2 in
    let overlap_area := area (intersection geom1 geom2) in
    let union_area := (area1 + area2 - overlap_area)%Q in
    [R9.mk (b_buildingkey b1) (b_buildingkey b2) area1 area2 overlap_area
       (q9_iou overlap_area union_area)]
  else [].

(** [for i in range(n): for j in range(i + 1, n): ...] *)
Fixpoint q9_pairs (buildings : list Building) : list R9.row :=
  match buildings with
  | [] => []
  | b1 :: rest => flat_map (q9_pair b1) rest ++ q9_pairs rest
  end.

Definition q9 : IO (DataFrame R9.row) :=
  with_runner (fun runner =>
    building_results <- _query_building runner ""
                          ["b_buildingkey"; "b_boundary"] 1000000;;
    match building_results with
    | [] => ret (DataFrame_columns R9.schema)
    | _ =>
        let result_df :=
          DataFrame_records R9.schema (q9_pairs building_results) in
        if empty result_df then ret (DataFrame_columns R9.schema)
        else ret (df_sort_values R9.order result_df)
    end).

(** *** Q10: zone statistics with LEFT JOIN semantics *)

Definition q10_no_trips (zone_row : Zone) : R10.row :=
  R10.mk (z_zonekey zone_row) (z_name zone_row) NaN NaN 0.

Definition q10_stats (trip_df : list Trip) (zone_row : Zone) : R10.row :=
  let matching := matching_trips trip_df zone_row in
  if 0 <? len matching then
    let durations := map duration_seconds matching in
    R10.mk (z_zonekey zone_row) (z_name zone_row) (nanmean durations)
      (mean (map t_distance matching)) (len matching)
  else
    R10.mk (z_zonekey zone_row) (z_name zone_row) NaN NaN 0.

Definition q10 : IO (DataFrame R10.row) :=
  with_runner (fun runner =>
    zone_results <- _query_zone runner ""
                      ["z_zonekey"; "z_name"; "z_boundary"] 1000000;;
    match zone_results with
    | [] => ret (DataFrame_columns R10.schema)
    | _ =>
        trip_results <- _query_trip runner ""
                          ["t_tripkey"; "t_pickuploc"; "t_pickuptime";
                           "t_dropofftime"; "t_distance"] 10000000;;
        match trip_results with
        | [] =>
            let result := map q10_no_trips zone_results in
            ret (mkDataFrame R10.schema (sort_values R10.order result))
        | _ =>
            let result_df :=
              DataFrame_records R10.schema
                (map (q10_stats trip_results) zone_results) in
            ret (df_sort_values R10.order result_df)
        end
    end).

(** *** Q11: trips that cross between different zones *)

Fixpoint find_zone (zones : list Zone) (point : geom) : option Z :=
  match zones with
  | [] => None
  | zone :: rest =>
      if contains (zone_geom zone) point then Some (z_zonekey zone)
      else find_zone rest point
  end.

Definition notna (z : option Z) : bool :=
  match z with
  | Some _ => true
  | None => false
  end.

(** The double nearest to an integer (ties to even), as an integer: what
    a key becomes when it is stored in a [float64] column. *)
Definition float64_of_int (z : Z) : Z :=
  let a := Z.abs z in
  if a <? 2 ^ 53 then z
  else
    let e := Z.log2 a - 52 in
    let q := a / 2 ^ e in
    let r := a mod 2 ^ e in
    let half := 2 ^ (e - 1) in
    let q' := if (half <? r) || ((r =? half) && Z.odd q) then q + 1 else q in
    Z.sgn z * (q' * 2 ^ e).

(** [Series.apply(find_zone)] makes an [int64] column when every point has
    a zone; as soon as one has none, the column is [float64], with [NaN]
    for the points without a zone and the keys converted. *)
Definition has_missing (col : list (option Z)) : bool :=
  existsb (fun z => negb (notna z)) col.

(** [!=] between the two zone columns: a missing value differs from all;
    keys are compared as integers when both columns are [int64], and as
    doubles when one of them is [float64]. *)
Definition ne (as_float : bool) (a b : option Z) : bool :=
  match a, b with
  | Some x, Some y =>
      if as_float then negb (float64_of_int x =? float64_of_int y)
      else negb (x =? y)
  | _, _ => true
  end.

Definition q11_mask (zones : list Zone) (as_float : bool) (t : Trip) : bool :=
  let pickup_zone := find_zone zones (pickup_geom t) in
  let dropoff_zone := find_zone zones (dropoff_geom t) in
  notna pickup_zone && notna dropoff_zone
  && ne as_float pickup_zone dropoff_zone.

Definition q11_count (zones : list Zone) (trip_df : list Trip) : Z :=
  let pickup_zone := map (fun t => find_zone zones (pickup_geom t)) trip_df in
  let dropoff_zone :=
    map (fun t => find_zone zones (dropoff_geom t)) trip_df in
  let as_float := has_missing pickup_zone || has_missing dropoff_zone in
  len (filter (q11_mask zones as_float) trip_df).

Definition q11 : IO (DataFrame R11.row) :=
  with_runner (fun runner =>
    zone_results <- _query_zone runner "" ["z_zonekey"; "z_boundary"] 1000000;;
    match zone_results with
    | [] => ret (mkDataFrame R11.schema [R11.mk 0])
    | _ =>
        trip_results <- _query_trip runner ""
                          ["t_tripkey"; "t_pickuploc"; "t_dropoffloc"]
                          10000000;;
        match trip_results with
        | [] => ret (mkDataFrame R11.schema [R11.mk 0])
        | _ =>
            let count := q11_count zone_results trip_results in
            ret (mkDataFrame R11.schema [R11.mk count])
        end
    end).

(** *** Q5, Q7, Q12: not supported by Milvus GIS *)

Definition q5 : IO (DataFrame unit) :=
  raise (NotImplementedError
    ("Q5 is not supported by Milvus GIS. "
     ++ "Required functions ST_ConvexHull, ST_Collect, ST_Area are not available.")%string).

Definition q7 : IO (DataFrame unit) :=
  raise (NotImplementedError
    ("Q7 is not supported by Milvus GIS. "
     ++ "Required functions ST_MakeLine, ST_Length are not available.")%string).

Definition q12 : IO (DataFrame unit) :=
  raise (NotImplementedError
    ("Q12 is not supported by Milvus GIS. "
     ++ "Required function ST_KNN is not available.")%string).

(** *** What the server hands to a query run from a fresh process *)

Definition the_runner : MilvusQueryRunner :=
  mkRunner (environ_get_default "MILVUS_URI" "http://localhost:19530")
    (environ_get_default "MILVUS_PREFIX" COLLECTION_PREFIX) true.

Definition fetch_trips (filter_expr : string) (limit : Z) : list Trip :=
  query_trip (_collection_name the_runner "trip") filter_expr limit.

Definition fetch_zones (filter_expr : string) (limit : Z) : list Zone :=
  query_zone (_collection_name the_runner "zone") filter_expr limit.

Definition fetch_buildings (filter_expr : string) (limit : Z) : list Building :=
  query_building (_collection_name the_runner "building") filter_expr limit.

End Queries.

(** ** The loader: [milvus_data_loader.py]

    The loader talks to the server through a client whose calls are logged
    and act on the server's collections; its progress messages on standard
    output are left out. Parquet files, the file system and the pandas side
    of [prepare_row_data] are an interface. *)

Module Loader.

Inductive DataType : Type := INT64 | VARCHAR | GEOMETRY | DOUBLE.

Definition DataType_eqb (a b : DataType) : bool :=
  match a, b with
  | INT64, INT64 | VARCHAR, VARCHAR | GEOMETRY, GEOMETRY | DOUBLE, DOUBLE =>
      true
  | _, _ => false
  end.

(** A schema entry of [TABLE_CONFIGS]: a tuple of three, or of four with the
    maximal length. *)
Inductive field_def : Type :=
| Field3 (name : string) (dtype : DataType) (is_primary : bool)
| Field4 (name : string) (dtype : DataType) (is_primary : bool)
    (max_length : Z).

Definition field_name (f : field_def) : string :=
  match f with
  | Field3 n _ _ | Field4 n _ _ _ => n
  end.

Definition field_dtype (f : field_def) : DataType :=
  match f with
  | Field3 _ d _ | Field4 _ d _ _ => d
  end.

Definition field_is_primary (f : field_def) : bool :=
  match f with
  | Field3 _ _ p | Field4 _ _ p _ => p
  end.

Record table_config : Type := mkConfig {
  geometry_cols : list string;
  primary_key : string;
  schema_fields : list field_def
}.

Definition DEFAULT_PREFIX : string := "spatialbench".

Definition TABLE_CONFIGS : list (string * table_config) :=
  [("trip",
    mkConfig ["t_pickuploc"; "t_dropoffloc"] "t_tripkey"
      [Field3 "t_tripkey" INT64 true;
       Field3 "t_custkey" INT64 false;
       Field3 "t_driverkey" INT64 false;
       Field3 "t_vehiclekey" INT64 false;
       Field4 "t_pickuptime" VARCHAR false 64;
       Field4 "t_dropofftime" VARCHAR false 64;
       Field3 "t_pickuploc" GEOMETRY false;
       Field3 "t_dropoffloc" GEOMETRY false;
       Field3 "t_distance" DOUBLE false;
       Field3 "t_fare" DOUBLE false;
       Field3 "t_tip" DOUBLE false;
       Field3 "t_totalamount" DOUBLE false]);
   ("customer",
    mkConfig [] "c_custkey"
      [Field3 "c_custkey" INT64 true;
       Field4 "c_name" VARCHAR false 256;
       Field4 "c_phone" VARCHAR false 64;
       Field4 "c_email" VARCHAR false 256]);
   ("driver",
    mkConfig [] "d_driverkey"
      [Field3 "d_driverkey" INT64 true;
       Field4 "d_name" VARCHAR false 256;
       Field4 "d_license" VARCHAR false 64;
       Field4 "d_phone" VARCHAR false 64]);
   ("vehicle",
    mkConfig [] "v_vehiclekey"
      [Field3 "v_vehiclekey" INT64 true;
       Field4 "v_make" VARCHAR false 128;
       Field4 "v_model" VARCHAR false 128;
       Field3 "v_year" INT64 false;
       Field4 "v_plate" VARCHAR false 32]);
   ("building",
    mkConfig ["b_boundary"] "b_buildingkey"
      [Field3 "b_buildingkey" INT64 true;
       Field4 "b_name" VARCHAR false 512;
       Field4 "b_type" VARCHAR false 128;
       Field3 "b_boundary" GEOMETRY false]);
   ("zone",
    mkConfig ["z_boundary"] "z_zonekey"
      [Field3 "z_zonekey" INT64 true;
       Field4 "z_name" VARCHAR false 512;
       Field4 "z_type" VARCHAR false 128;
       Field3 "z_boundary" GEOMETRY false])].

(** [d.keys()] and [key in d] on a dict kept as an association list. *)
Definition keys {V : Type} (d : list (string * V)) : list string := map fst d.

Definition contains_key {V : Type} (d : list (string * V)) (k : string) : bool :=
  existsb (String.eqb k) (keys d).

Fixpoint lookup {V : Type} (d : list (string * V)) (k : string) : option V :=
  match d with
  | [] => None
  | (k', v) :: rest => if (k =? k')%string then Some v else lookup rest k
  end.

Record FieldSchema : Type := mkFieldSchema {
  name : string;
  dtype : DataType;
  is_primary : bool;
  max_length : option Z
}.

Record CollectionSchema : Type := mkCollectionSchema {
  fields : list FieldSchema;
  description : string;
  enable_dynamic_field : bool
}.

Inductive exn : Type :=
| KeyError (key : string)
| ValueError (msg : string)
| MilvusException (msg : string)
| SystemExit (code : Z).

(** The body of the loop of [create_collection_schema]. *)
Definition field_schema (f : field_def) : FieldSchema :=
  match field_dtype f with
  | VARCHAR =>
      let max_length :=
        match f with
        | Field4 _ _ _ m => m
        | Field3 _ _ _ => 256
        end in
      mkFieldSchema (field_name f) (field_dtype f) (field_is_primary f)
        (Some max_length)
  | GEOMETRY =>
      mkFieldSchema (field_name f) (field_dtype f) (field_is_primary f) None
  | _ =>
      mkFieldSchema (field_name f) (field_dtype f) (field_is_primary f) None
  end.

Definition create_collection_schema (table_name : string)
  : exn + CollectionSchema :=
  match lookup TABLE_CONFIGS table_name with
  | None => inl (KeyError table_name)
  | Some config =>
      inr (mkCollectionSchema (map field_schema (schema_fields config))
             ("SpatialBench " ++ table_name ++ " table")%string true)
  end.

(** [range(start, stop, step)]. *)
Fixpoint range_up (fuel : nat) (i stop step : Z) : list Z :=
  match fuel with
  | O => []
  | S fuel' =>
      if i <? stop then i :: range_up fuel' (i + step) stop step else []
  end.

Fixpoint range_down (fuel : nat) (i stop step : Z) : list Z :=
  match fuel with
  | O => []
  | S fuel' =>
      if stop <? i then i :: range_down fuel' (i + step) stop step else []
  end.

Definition range (start stop step : Z) : exn + list Z :=
  if step =? 0 then inl (ValueError "range() arg 3 must not be zero")
  else if 0 <? step
       then inr (range_up (Z.to_nat (stop - start)) start stop step)
       else inr (range_down (Z.to_nat (start - stop)) start stop step).

(** [l[i:j]]: negative indices count from the end, all are clipped. *)
Definition clip_index (n i : Z) : Z :=
  if i <? 0 then Z.max 0 (i + n) else Z.min i n.

Definition slice {A : Type} (l : list A) (i j : Z) : list A :=
  let a := clip_index (len l) i in
  let b := clip_index (len l) j in
  firstn (Z.to_nat (b - a)) (skipn (Z.to_nat a) l).

(** [s.split(",")] and [s.strip()]; a character is a code point below
    256. *)
Definition comma : ascii := ","%char.

Fixpoint split_comma (s : string) : list string :=
  match s with
  | EmptyString => [EmptyString]
  | String c rest =>
      if Ascii.eqb c comma then EmptyString :: split_comma rest
      else match split_comma rest with
           | piece :: pieces => String c piece :: pieces
           | [] => [String c EmptyString]
           end
  end.

(** [c.isspace()]: tab to carriage return, the four separators, the
    space, next line (U+0085) and the no-break space (U+00A0). *)
Definition isspace (c : ascii) : bool :=
  let n := N_of_ascii c in
  ((9 <=? n) && (n <=? 13) || (28 <=? n) && (n <=? 32)
   || (n =? 133) || (n =? 160))%N.

(** [s.isascii()] *)
Fixpoint isascii (s : string) : bool :=
  match s with
  | EmptyString => true
  | String c rest => (N_of_ascii c <? 128)%N && isascii rest
  end.

Fixpoint lstrip (s : string) : string :=
  match s with
  | EmptyString => EmptyString
  | String c rest => if isspace c then lstrip rest else s
  end.

Fixpoint rstrip (s : string) : string :=
  match s with
  | EmptyString => EmptyString
  | String c rest =>
      match rstrip rest with
      | EmptyString => if isspace c then EmptyString else String c EmptyString
      | rest' => String c rest'
      end
  end.

Definition strip (s : string) : string := rstrip (lstrip s).

(** [sorted] on paths of one directory: by name. *)
Fixpoint insert_path (p : string) (ps : list string) : list string :=
  match ps with
  | [] => [p]
  | q :: rest => if String.leb p q then p :: ps else q :: insert_path p rest
  end.

Definition sorted_paths (ps : list string) : list string :=
  fold_right insert_path [] ps.

(** Files, parquet contents and what pandas makes of them. *)
Class Parquet : Type := {
  frame_row : Type;
  milvus_row : Type;
  is_dir : string -> bool;
  path_exists : string -> bool;
  glob_parquet : string -> list string;
  read_parquet : string -> list frame_row;
  prepare_row_data : list frame_row -> string -> list milvus_row;
  (** whether the server accepts an R-Tree index on a field *)
  index_accepted : string -> string -> bool
}.

Section Load.

Context `{Parquet}.

(** [data_dir / name] *)
Definition joinpath (data_dir name : string) : string :=
  (data_dir ++ "/" ++ name)%string.

Definition get_parquet_path (data_dir table_name : string) : option string :=
  let table_dir := joinpath data_dir table_name in
  let single_file := joinpath data_dir (table_name ++ ".parquet")%string in
  let dir_found :=
    if is_dir table_dir
    then match glob_parquet table_dir with
         | [] => false
         | _ => true
         end
    else false in
  if dir_found then Some table_dir
  else if path_exists single_file then Some single_file
  else None.

Definition load_parquet_data (path : string) : exn + list frame_row :=
  if is_dir path then
    let parquet_files := sorted_paths (glob_parquet path) in
    match map read_parquet parquet_files with
    | [] => inl (ValueError "No objects to concatenate")
    | dfs => inr (List.concat dfs)
    end
  else inr (read_parquet path).

(** The client's calls, as logged. *)
Inductive call : Type :=
| MilvusClient (uri : string)
| has_collection (collection_name : string)
| drop_collection (collection_name : string)
| create_collection (collection_name : string) (schema : CollectionSchema)
| insert (collection_name : string) (data : list milvus_row)
| create_index (collection_name field_name index_type : string)
| load_collection (collection_name : string)
| list_collections
| get_collection_stats (collection_name : string)
| close.

(** The server: its collections, each with its schema and rows, and the
    calls it has received, oldest first. *)
Record server : Type := mkServer {
  collections : list (string * (CollectionSchema * list milvus_row));
  calls : list call
}.

Definition LIO (A : Type) : Type := server -> (exn + A) * server.

Definition lret {A : Type} (a : A) : LIO A := fun s => (inr a, s).

Definition lraise {A : Type} (e : exn) : LIO A := fun s => (inl e, s).

Definition lbind {A B : Type} (m : LIO A) (k : A -> LIO B) : LIO B :=
  fun s =>
    match m s with
    | (inr a, s') => k a s'
    | (inl e, s') => (inl e, s')
    end.

Definition lift {A : Type} (r : exn + A) : LIO A := fun s => (r, s).

(** [try: body except Exception: pass]; [SystemExit] is no [Exception]. *)
Definition try_pass (body : LIO unit) : LIO unit :=
  fun s =>
    match body s with
    | (inl (SystemExit code), s') => (inl (SystemExit code), s')
    | (_, s') => (inr tt, s')
    end.

Definition log (c : call) : LIO unit :=
  fun s => (inr tt, mkServer (collections s) (calls s ++ [c])).

Definition remove_collection (collection_name : string)
  (cs : list (string * (CollectionSchema * list milvus_row)))
  : list (string * (CollectionSchema * list milvus_row)) :=
  filter (fun c => negb (fst c =? collection_name)%string) cs.

Fixpoint append_rows (collection_name : string) (data : list milvus_row)
  (cs : list (string * (CollectionSchema * list milvus_row)))
  : list (string * (CollectionSchema * list milvus_row)) :=
  match cs with
  | [] => []
  | (n, (schema, rows)) :: rest =>
      if (n =? collection_name)%string
      then (n, (schema, rows ++ data)) :: rest
      else (n, (schema, rows)) :: append_rows collection_name data rest
  end.

Definition client_has_collection (collection_name : string) : LIO bool :=
  fun s =>
    (inr (contains_key (collections s) collection_name),
     mkServer (collections s) (calls s ++ [has_collection collection_name])).

Definition client_drop_collection (collection_name : string) : LIO unit :=
  fun s =>
    (inr tt,
     mkServer (remove_collection collection_name (collections s))
       (calls s ++ [drop_collection collection_name])).

Definition client_create_collection (collection_name : string)
  (schema : CollectionSchema) : LIO unit :=
  fun s =>
    let s' := mkServer (collections s)
                (calls s ++ [create_collection collection_name schema]) in
    if contains_key (collections s) collection_name
    then (inl (MilvusException "collection already exists"), s')
    else (inr tt,
          mkServer (collections s ++ [(collection_name, (schema, []))])
            (calls s')).

Definition client_insert (collection_name : string) (data : list milvus_row)
  : LIO unit :=
  fun s =>
    let s' := mkServer (collections s)
                (calls s ++ [insert collection_name data]) in
    if contains_key (collections s) collection_name
    then (inr tt,
          mkServer (append_rows collection_name data (collections s))
            (calls s'))
    else (inl (MilvusException "collection not found"), s').

Definition client_create_index (collection_name field_name : string)
  : LIO unit :=
  fun s =>
    let s' := mkServer (collections s)
                (calls s ++ [create_index collection_name field_name "RTREE"]) in
    if index_accepted collection_name field_name then (inr tt, s')
    else (inl (MilvusException "index not created"), s').

Definition client_list_collections : LIO (list string) :=
  fun s =>
    (inr (keys (collections s)),
     mkServer (collections s) (calls s ++ [list_collections])).

(** [for i in range(...): batch = rows[i:i + batch_size]; insert; count] *)
Fixpoint insert_batches (collection_name : string) (rows : list milvus_row)
  (batch_size : Z) (starts : list Z) (total_inserted : Z) : LIO Z :=
  match starts with
  | [] => lret total_inserted
  | i :: rest =>
      let batch := slice rows i (i + batch_size) in
      lbind (client_insert collection_name batch) (fun _ =>
      insert_batches collection_name rows batch_size rest
        (total_inserted + len batch))
  end.

Fixpoint create_indexes (collection_name : string) (geometry_cols : list string)
  : LIO unit :=
  match geometry_cols with
  | [] => lret tt
  | geom_col :: rest =>
      lbind (try_pass (client_create_index collection_name geom_col))
        (fun _ => create_indexes collection_name rest)
  end.

Definition load_table_to_milvus (data_dir table_name prefix : string)
  (batch_size : Z) : LIO Z :=
  let collection_name := (prefix ++ "_" ++ table_name)%string in
  match get_parquet_path data_dir table_name with
  | None => lret 0
  | Some data_path =>
      lbind (lift (load_parquet_data data_path)) (fun df =>
      lbind (client_has_collection collection_name) (fun found =>
      lbind (if found then client_drop_collection collection_name
             else lret tt) (fun _ =>
      lbind (lift (create_collection_schema table_name)) (fun schema =>
      lbind (client_create_collection collection_name schema) (fun _ =>
      let rows := prepare_row_data df table_name in
      lbind (lift (range 0 (len rows) batch_size)) (fun starts =>
      lbind (insert_batches collection_name rows batch_size starts 0)
        (fun total_inserted =>
      lbind (match lookup TABLE_CONFIGS table_name with
             | None => lraise (KeyError table_name)
             | Some config =>
                 create_indexes collection_name (geometry_cols config)
             end) (fun _ =>
      lbind (log (load_collection collection_name)) (fun _ =>
      lret total_inserted)))))))))
  end.

(** The parsed command line. *)
Record args : Type := mkArgs {
  data_dir : string;
  uri : string;
  prefix : string;
  tables : option string;
  batch_size : Z
}.

Definition default_args (data_dir : string) : args :=
  mkArgs data_dir "http://localhost:19530" DEFAULT_PREFIX None 10000.

Fixpoint check_tables (tables : list string) : LIO unit :=
  match tables with
  | [] => lret tt
  | t :: rest =>
      if contains_key TABLE_CONFIGS t then check_tables rest
      else lraise (SystemExit 1)
  end.

Fixpoint load_tables (a : args) (tables : list string) (total_rows : Z)
  : LIO Z :=
  match tables with
  | [] => lret total_rows
  | table :: rest =>
      lbind (load_table_to_milvus (data_dir a) table (prefix a) (batch_size a))
        (fun rows => load_tables a rest (total_rows + rows))
  end.

Fixpoint report_collections (prefix : string) (collections : list string)
  : LIO unit :=
  match collections with
  | [] => lret tt
  | coll :: rest =>
      lbind (if String.prefix prefix coll
             then log (get_collection_stats coll) else lret tt)
        (fun _ => report_collections prefix rest)
  end.

(** [args.tables] is used when it is given and not empty. *)
Definition chosen_tables (a : args) : option (list string) :=
  match tables a with
  | None => None
  | Some EmptyString => None
  | Some text => Some (map strip (split_comma text))
  end.

Definition main (a : args) : LIO unit :=
  if negb (path_exists (data_dir a)) then lraise (SystemExit 1)
  else
    lbind (match chosen_tables a with
           | Some tables =>
               lbind (check_tables tables) (fun _ => lret tables)
           | None => lret (keys TABLE_CONFIGS)
           end) (fun tables =>
    lbind (log (MilvusClient (uri a))) (fun _ =>
    lbind (load_tables a tables 0) (fun total_rows =>
    lbind client_list_collections (fun collections =>
    lbind (report_collections (prefix a) collections) (fun _ =>
    log close))))).

End Load.

End Loader.

(** A directory [data] for the loader: the trip table as two part files, the
    zone table as a single file, nothing else; rows are numbers, preparing
    a row multiplies it by ten, and the server refuses every index. *)

Module LoaderFixture.

Definition files_is_dir (p : string) : bool := (p =? "data/trip")%string.

Definition files_exists (p : string) : bool :=
  (p =? "data")%string || (p =? "data/trip")%string
  || (p =? "data/zone.parquet")%string.

Definition files_glob (p : string) : list string :=
  if (p =? "data/trip")%string
  then ["data/trip/part-1.parquet"; "data/trip/part-0.parquet"]
  else [].

Definition files_read (p : string) : list Z :=
  if (p =? "data/trip/part-0.parquet")%string then [1; 2; 3]
  else if (p =? "data/trip/part-1.parquet")%string then [4; 5]
  else if (p =? "data/zone.parquet")%string then [7]
  else [].

#[export] Instance files : Loader.Parquet := {|
  Loader.frame_row := Z;
  Loader.milvus_row := Z;
  Loader.is_dir := files_is_dir;
  Loader.path_exists := files_exists;
  Loader.glob_parquet := files_glob;
  Loader.read_parquet := files_read;
  Loader.prepare_row_data := fun df _ => map (Z.mul 10) df;
  Loader.index_accepted := fun _ _ => false
|}.

(** A server that already holds an old trip collection. *)
Definition old_schema : Loader.CollectionSchema :=
  Loader.mkCollectionSchema [] "old" false.

Definition used_server : @Loader.server files :=
  Loader.mkServer [("spatialbench_trip", (old_schema, [99; 98]))] [].

Definition fresh_server : @Loader.server files := Loader.mkServer [] [].

End LoaderFixture.

(** ** A small world to run the queries in

    Axis-parallel boxes and points stand in for shapely's geometries (a box
    contains the points of its open interior, as shapely's [contains] does),
    a Milvus server answers from three in-memory tables, and the
    environment sets no variable. *)

Module Fixture.

Inductive shape : Type :=
| Pt (x y : Q)
| Box (x0 y0 x1 y1 : Q).

Definition Qltb (x y : Q) : bool := negb (Qle_bool y x).

(** The point of the closed interval [lo, hi] nearest to [x]. *)
Definition clamp (lo hi x : Q) : Q := Qmax lo (Qmin hi x).

Definition covers (g p : shape) : bool :=
  match g, p with
  | Box x0 y0 x1 y1, Pt x y =>
      Qle_bool x0 x && Qle_bool x x1 && Qle_bool y0 y && Qle_bool y y1
  | Pt x0 y0, Pt x y => Qeq_bool x0 x && Qeq_bool y0 y
  | _, _ => false
  end.

Definition shape_contains (g p : shape) : bool :=
  match g, p with
  | Box x0 y0 x1 y1, Pt x y =>
      Qltb x0 x && Qltb x x1 && Qltb y0 y && Qltb y y1
  | _, _ => false
  end.

Definition shape_intersection (g h : shape) : shape :=
  match g, h with
  | Box a0 b0 a1 b1, Box c0 d0 c1 d1 =>
      Box (Qmax a0 c0) (Qmax b0 d0) (Qmin a1 c1) (Qmin b1 d1)
  | _, Pt x y => Pt x y
  | Pt x y, _ => Pt x y
  end.

Definition shape_intersects (g h : shape) : bool :=
  match g, h with
  | Box a0 b0 a1 b1, Box c0 d0 c1 d1 =>
      Qle_bool (Qmax a0 c0) (Qmin a1 c1) && Qle_bool (Qmax b0 d0) (Qmin b1 d1)
  | _, Pt _ _ => covers g h
  | Pt _ _, _ => covers h g
  end.

Definition shape_area (g : shape) : Q :=
  match g with
  | Pt _ _ => 0
  | Box x0 y0 x1 y1 => (x1 - x0) * (y1 - y0)
  end.

Definition sq (x : Q) : Q := x * x.

(** The gap between the intervals [lo, hi] and [lo', hi']: 0 when they
    meet. *)
Definition gap (lo hi lo' hi' : Q) : Q := Qmax 0 (Qmax (lo' - hi) (lo - hi')).

(** The squared Euclidean distance between two shapes, which is rational. *)
Definition sq_distance (p g : shape) : Q :=
  match p, g with
  | Pt x y, Pt x' y' => sq (x - x') + sq (y - y')
  | Pt x y, Box x0 y0 x1 y1 =>
      sq (x - clamp x0 x1 x) + sq (y - clamp y0 y1 y)
  | Box x0 y0 x1 y1, Pt x y =>
      sq (x - clamp x0 x1 x) + sq (y - clamp y0 y1 y)
  | Box a0 b0 a1 b1, Box c0 d0 c1 d1 =>
      sq (gap a0 a1 c0 c1) + sq (gap b0 b1 d0 d1)
  end.

(** The square root of a rational: exact when it is rational, and
    otherwise rounded down at 60 binary places, as a double rounds it at
    53. *)
Definition Qsqrt (q : Q) : Q :=
  Qmake (Z.sqrt (Qnum q * Z.pos (Qden q) * 4 ^ 60)) (Qden q * 2 ^ 60).

(** Shapely's [distance]: the Euclidean distance. *)
Definition shape_distance (p g : shape) : Q := Qsqrt (sq_distance p g).

Definition shape_x (g : shape) : Q :=
  match g with
  | Pt x _ => x
  | Box x0 _ _ _ => x0
  end.

Definition shape_y (g : shape) : Q :=
  match g with
  | Pt _ y => y
  | Box _ y0 _ _ => y0
  end.

Definition unit_box_wkt : string := "POLYGON((0 0, 1 0, 1 1, 0 1, 0 0))".
Definition shifted_box_wkt : string :=
  "POLYGON((0.5 0.5, 1.5 0.5, 1.5 1.5, 0.5 1.5, 0.5 0.5))".
Definition big_box_wkt : string := "POLYGON((0 0, 4 0, 4 4, 0 4, 0 0))".
Definition far_box_wkt : string := "POLYGON((10 10, 11 10, 11 11, 10 11, 10 10))".
Definition other_box_wkt : string := "POLYGON((20 20, 21 20, 21 21, 20 21, 20 20))".
Definition flat_box_wkt : string := "POLYGON((0 0, 1 0, 0 0, 0 0))".

(** Three boxes inside the bounding box of Q6, around Sedona. *)
Definition west_box_wkt : string :=
  "POLYGON((-112 34.5, -111.9 34.5, -111.9 34.6, -112 34.6, -112 34.5))".
Definition town_box_wkt : string :=
  "POLYGON((-111.8 34.8, -111.7 34.8, -111.7 34.9, -111.8 34.9, -111.8 34.8))".
Definition east_box_wkt : string :=
  "POLYGON((-111.5 35, -111.4 35, -111.4 35.1, -111.5 35.1, -111.5 35))".

(** The WKT reader, on the texts the scenarios use. *)
Definition shape_loads (wkt : string) : shape :=
  if (wkt =? unit_box_wkt)%string then Box 0 0 1 1
  else if (wkt =? shifted_box_wkt)%string then Box (1#2) (1#2) (3#2) (3#2)
  else if (wkt =? big_box_wkt)%string then Box 0 0 4 4
  else if (wkt =? far_box_wkt)%string then Box 10 10 11 11
  else if (wkt =? other_box_wkt)%string then Box 20 20 21 21
  else if (wkt =? flat_box_wkt)%string then Box 0 0 1 0
  else if (wkt =? west_box_wkt)%string
       then Box (-112) (345 # 10) (-1119 # 10) (346 # 10)
  else if (wkt =? town_box_wkt)%string
       then Box (-1118 # 10) (348 # 10) (-1117 # 10) (349 # 10)
  else if (wkt =? east_box_wkt)%string
       then Box (-1115 # 10) 35 (-1114 # 10) (351 # 10)
  else if (wkt =? "POINT(-111.95 34.55)")%string
       then Pt (-11195 # 100) (3455 # 100)
  else if (wkt =? "POINT(0.5 0.5)")%string then Pt (1#2) (1#2)
  else if (wkt =? "POINT(0.25 0.75)")%string then Pt (1#4) (3#4)
  else if (wkt =? "POINT(1 0.5)")%string then Pt 1 (1#2)
  else if (wkt =? "POINT(3 3)")%string then Pt 3 3
  else if (wkt =? "POINT(10.5 10.5)")%string then Pt (21#2) (21#2)
  else Pt 100 100.

#[export] Instance shapes : Shapely := {|
  geom := shape;
  loads := shape_loads;
  Point := Pt;
  geom_x := shape_x;
  geom_y := shape_y;
  distance := shape_distance;
  contains := shape_contains;
  intersects := shape_intersects;
  intersection := shape_intersection;
  area := shape_area
|}.

(** Times of day on 2024-01-01 and 2024-02-01, in nanoseconds since the
    epoch; the empty text and "NaT" read as the missing time. The scenarios
    use no other text. *)
Definition jan1 : Z := 1704067200000000000.
Definition feb1 : Z := 1706745600000000000.

Definition clock_to_datetime (s : string) : option Z :=
  if (s =? "2024-01-01 00:00:00")%string then Some jan1
  else if (s =? "2024-01-01 00:10:00")%string then Some (jan1 + 600000000000)
  else if (s =? "2024-01-01 00:30:00")%string then Some (jan1 + 1800000000000)
  else if (s =? "2024-02-01 00:00:00")%string then Some feb1
  else if (s =? "2024-02-01 00:20:00")%string then Some (feb1 + 1200000000000)
  else None.

Definition clock_month_start (t : Z) : Z :=
  if feb1 <=? t then feb1 else if jan1 <=? t then jan1 else 0.

#[export] Instance clock : Calendar := {|
  to_datetime := clock_to_datetime;
  month_start := clock_month_start
|}.

#[export] Instance no_environ : Environ := {|
  environ_get := fun _ => None
|}.

(** "Within distance [r]", decided on the squares. *)
Definition within (r : Q) (g p : shape) : bool :=
  Qle_bool (sq_distance p g) (sq r).

(** [s] without the prefix [p], when it starts with it. *)
Fixpoint strip_prefix (p s : string) : option string :=
  match p, s with
  | EmptyString, _ => Some s
  | String a p', String b s' =>
      if Ascii.eqb a b then strip_prefix p' s' else None
  | String _ _, EmptyString => None
  end.

Definition reverse (s : string) : string :=
  string_of_list_ascii (rev (list_ascii_of_string s)).

Definition strip_suffix (suffix s : string) : option string :=
  option_map reverse (strip_prefix (reverse suffix) (reverse s)).

(** The geometry in [GEOM_INTERSECTS(t_pickuploc, '<wkt>')]. *)
Definition intersects_argument (flt : string) : option string :=
  match strip_prefix "GEOM_INTERSECTS(t_pickuploc, '" flt with
  | Some rest => strip_suffix "')" rest
  | None => None
  end.

(** The filter expressions of Q1, Q3 and Q6, and what they ask for. *)
Definition around_sedona : string :=
  "GEOM_DWITHIN(t_pickuploc, 'POINT(-111.7610 34.8697)', 0.45)".
Definition around_box : string :=
  "GEOM_DWITHIN(t_pickuploc, 'POLYGON((-111.9060 34.7347, -111.6160 34.7347, -111.6160 35.0047, -111.9060 35.0047, -111.9060 34.7347))', 0.045)".
Definition across_bbox : string :=
  "GEOM_INTERSECTS(z_boundary, 'POLYGON((-112.2110 34.4197, -111.3110 34.4197, -111.3110 35.3197, -112.2110 35.3197, -112.2110 34.4197))')".

Definition sedona : shape := Pt (-1117610 # 10000) (348697 # 10000).
Definition sedona_box : shape :=
  Box (-1119060 # 10000) (347347 # 10000) (-1116160 # 10000) (350047 # 10000).
Definition sedona_bbox : shape :=
  Box (-1122110 # 10000) (344197 # 10000) (-1113110 # 10000) (353197 # 10000).

Definition select_trips (flt : string) (trips : list Trip) : list Trip :=
  if (flt =? "")%string then trips
  else if (flt =? around_sedona)%string
       then filter (fun t => within (45 # 100) sedona
                               (shape_loads (t_pickuploc t))) trips
  else if (flt =? around_box)%string
       then filter (fun t => within (45 # 1000) sedona_box
                               (shape_loads (t_pickuploc t))) trips
  else match intersects_argument flt with
       | Some wkt =>
           filter (fun t => shape_intersects (shape_loads (t_pickuploc t))
                              (shape_loads wkt)) trips
       | None => []
       end.

Definition select_zones (flt : string) (zones : list Zone) : list Zone :=
  if (flt =? "")%string then zones
  else if (flt =? "z_name == 'Coconino County'")%string
       then filter (fun z => (z_name z =? "Coconino County")%string) zones
  else if (flt =? across_bbox)%string
       then filter (fun z => shape_intersects (shape_loads (z_boundary z))
                               sedona_bbox) zones
  else [].

(** A server holding the given tables under the default prefix. It answers
    the filters the queries build, by their meaning (a distance is in the
    unit of the coordinates, as the queries give it), and returns at most
    [limit] rows; it knows no other filter. *)
Definition server (trips : list Trip) (zones : list Zone)
  (buildings : list Building) : Milvus := {|
  query_trip := fun name flt limit =>
    if (name =? "spatialbench_trip")%string
    then firstn (Z.to_nat limit) (select_trips flt trips) else [];
  query_zone := fun name flt limit =>
    if (name =? "spatialbench_zone")%string
    then firstn (Z.to_nat limit) (select_zones flt zones) else [];
  query_building := fun name flt limit =>
    if (name =? "spatialbench_building")%string
    then firstn (Z.to_nat limit)
           (if (flt =? "")%string then buildings else [])
    else []
|}.

Definition trip (key : Z) (pickup dropoff : string) (tip : Q) : Trip :=
  mkTrip key "2024-01-01 00:00:00" "2024-01-01 00:10:00" pickup dropoff
    2 10 tip 12.

Definition zone_a : Zone := mkZone 1 "A" unit_box_wkt.
Definition zone_big : Zone := mkZone 2 "Big" big_box_wkt.
Definition zone_far : Zone := mkZone 3 "Far" far_box_wkt.
Definition zone_other : Zone := mkZone 4 "Other" other_box_wkt.

Definition zone_west : Zone := mkZone 1 "West" west_box_wkt.
Definition zone_town : Zone := mkZone 2 "Town" town_box_wkt.
Definition zone_east : Zone := mkZone 3 "East" east_box_wkt.

Definition building_unit : Building := mkBuilding 1 "unit" unit_box_wkt.
Definition building_shifted : Building := mkBuilding 2 "shifted" shifted_box_wkt.

End Fixture.

(** * Facts about the comparator and the sort *)

Section SortFacts.

Context {R : Type}.
Implicit Types (ks : list (sortkey R)) (a b c x : R) (l : list R).

Lemma key_compare_sym (asc : bool) (s t : scalar) :
  key_compare asc t s = CompOpp (key_compare asc s t).
Proof.
  unfold key_compare.
  destruct (number s) as [p|], (number t) as [q|]; simpl; trivial.
  destruct asc; symmetry; apply Qcompare_antisym.
Qed.

Lemma key_compare_eq_l (asc : bool) (s t u : scalar) :
  key_compare asc s t = Eq -> key_compare asc s u = key_compare asc t u.
Proof.
  unfold key_compare.
  destruct (number s) as [p|], (number t) as [q|], (number u) as [r|];
    simpl; try discriminate; trivial.
  destruct asc; intros E; apply Qeq_alt in E.
  - now rewrite E.
  - now rewrite E.
Qed.

Lemma key_compare_lt_trans (asc : bool) (s t u : scalar) :
  key_compare asc s t = Lt -> key_compare asc t u = Lt ->
  key_compare asc s u = Lt.
Proof.
  unfold key_compare.
  destruct (number s) as [p|], (number t) as [q|], (number u) as [r|];
    simpl; try discriminate; trivial.
  destruct asc; rewrite <- !Qlt_alt; intros; eapply Qlt_trans; eassumption.
Qed.

Lemma rows_compare_sym ks a b :
  rows_compare ks b a = CompOpp (rows_compare ks a b).
Proof.
  induction ks as [|k ks IH]; simpl; trivial.
  rewrite (key_compare_sym _ (column k a) (column k b)).
  destruct (key_compare (ascending k) (column k a) (column k b)); simpl; trivial.
Qed.

Lemma rows_compare_eq_l ks a b c :
  rows_compare ks a b = Eq -> rows_compare ks a c = rows_compare ks b c.
Proof.
  induction ks as [|k ks IH]; simpl; trivial.
  destruct (key_compare (ascending k) (column k a) (column k b)) eqn:E;
    try discriminate.
  intros E'. rewrite (key_compare_eq_l _ _ _ (column k c) E).
  destruct (key_compare (ascending k) (column k b) (column k c)); auto.
Qed.

Lemma rows_compare_eq_sym ks a b :
  rows_compare ks a b = Eq -> rows_compare ks b a = Eq.
Proof. intros E. now rewrite rows_compare_sym, E. Qed.

Lemma rows_compare_lt_trans ks a b c :
  rows_compare ks a b = Lt -> rows_compare ks b c = Lt ->
  rows_compare ks a c = Lt.
Proof.
  induction ks as [|k ks IH]; simpl; try discriminate.
  destruct (key_compare (ascending k) (column k a) (column k b)) eqn:E1;
    try discriminate;
    destruct (key_compare (ascending k) (column k b) (column k c)) eqn:E2;
    try discriminate; intros H1 H2.
  - rewrite (key_compare_eq_l _ _ _ _ E1), E2. auto.
  - now rewrite (key_compare_eq_l _ _ _ _ E1), E2.
  - assert (E3 : key_compare (ascending k) (column k c) (column k b) = Eq)
      by (now rewrite key_compare_sym, E2).
    assert (E4 : key_compare (ascending k) (column k c) (column k a) = Gt).
    { rewrite (key_compare_eq_l _ _ _ _ E3), key_compare_sym, E1.
      reflexivity. }
    rewrite key_compare_sym, E4. reflexivity.
  - now rewrite (key_compare_lt_trans _ _ _ _ E1 E2).
Qed.

Lemma row_le_total ks a b : rows_compare ks a b = Gt -> row_le ks b a.
Proof.
  unfold row_le. intros E. rewrite rows_compare_sym, E. discriminate.
Qed.

Lemma row_le_trans ks a b c : row_le ks a b -> row_le ks b c -> row_le ks a c.
Proof.
  unfold row_le. intros Hab Hbc.
  destruct (rows_compare ks a b) eqn:E1; try congruence.
  - now rewrite (rows_compare_eq_l _ _ _ _ E1).
  - destruct (rows_compare ks b c) eqn:E2; try congruence.
    + apply rows_compare_eq_sym in E2.
      pose proof (rows_compare_eq_l _ _ _ a E2) as E3.
      rewrite (rows_compare_sym _ c a), E3, (rows_compare_sym _ a b), E1.
      discriminate.
    + rewrite (rows_compare_lt_trans _ _ _ _ E1 E2). discriminate.
Qed.

Lemma row_le_antisym ks a b :
  row_le ks a b -> row_le ks b a -> rows_compare ks a b = Eq.
Proof.
  unfold row_le. rewrite (rows_compare_sym ks a b).
  destruct (rows_compare ks a b); simpl; congruence.
Qed.

Lemma insert_row_perm ks x l : Permutation (insert_row ks x l) (x :: l).
Proof.
  induction l as [|y l IH]; simpl; auto.
  destruct (rows_compare ks x y); auto.
  rewrite IH. apply perm_swap.
Qed.

Lemma sort_values_perm ks l : Permutation (sort_values ks l) l.
Proof.
  induction l as [|x l IH]; simpl; auto.
  rewrite insert_row_perm. now constructor.
Qed.

Lemma insert_row_sorted ks x l :
  StronglySorted (row_le ks) l -> StronglySorted (row_le ks) (insert_row ks x l).
Proof.
  induction 1 as [|y l Hs IH Hy]; simpl.
  - repeat constructor.
  - destruct (rows_compare ks x y) eqn:E.
    + constructor; [now constructor|].
      assert (Hxy : row_le ks x y) by (unfold row_le; congruence).
      constructor; trivial.
      eapply Forall_impl; [|exact Hy]. intros z; now apply row_le_trans.
    + constructor; [now constructor|].
      assert (Hxy : row_le ks x y) by (unfold row_le; congruence).
      constructor; trivial.
      eapply Forall_impl; [|exact Hy]. intros z; now apply row_le_trans.
    + constructor; trivial.
      apply Forall_forall. intros z Hz.
      apply (Permutation_in _ (insert_row_perm ks x l)) in Hz.
      destruct Hz as [<-|Hz].
      * now apply row_le_total.
      * rewrite Forall_forall in Hy. auto.
Qed.

Lemma sort_values_sorted ks l : StronglySorted (row_le ks) (sort_values ks l).
Proof.
  induction l as [|x l IH]; simpl.
  - constructor.
  - now apply insert_row_sorted.
Qed.

Lemma sort_values_length ks l :
  List.length (sort_values ks l) = List.length l.
Proof. apply Permutation_length, sort_values_perm. Qed.

Lemma sort_values_nil ks l : sort_values ks l = [] -> l = [].
Proof.
  intros E. pose proof (sort_values_length ks l) as L. rewrite E in L.
  destruct l; [trivial | discriminate].
Qed.

(** A sorted row list reads the same whichever permutation it was sorted
    from, as soon as the keys tell any two of its rows apart. *)
Lemma sorted_perm_unique ks l1 l2 :
  (forall a b, In a l1 -> In b l1 -> rows_compare ks a b = Eq -> a = b) ->
  Permutation l1 l2 ->
  StronglySorted (row_le ks) l1 -> StronglySorted (row_le ks) l2 ->
  l1 = l2.
Proof.
  revert l2. induction l1 as [|a l1 IH]; intros l2 Hinj HP S1 S2.
  - apply Permutation_nil in HP. now subst.
  - destruct l2 as [|b l2].
    { apply Permutation_sym, Permutation_nil in HP. discriminate. }
    inversion S1 as [|? ? S1' F1]; subst.
    inversion S2 as [|? ? S2' F2]; subst.
    rewrite Forall_forall in F1, F2.
    assert (Hab : a = b).
    { assert (Ia : In a (b :: l2))
        by (eapply Permutation_in; [exact HP | now left]).
      assert (Ib : In b (a :: l1))
        by (eapply Permutation_in;
            [apply Permutation_sym; exact HP | now left]).
      destruct Ia as [->|Ia]; trivial.
      destruct Ib as [->|Ib]; trivial.
      apply Hinj; [now left | now right |].
      apply row_le_antisym; auto. }
    subst b. f_equal. apply IH; trivial.
    + intros x y Hx Hy. apply Hinj; now right.
    + now apply Permutation_cons_inv in HP.
Qed.

End SortFacts.

(** * The queries, run *)

(** Unfolds a query down to the server's answers. *)
Ltac run_query :=
  unfold result, trace, fetches, with_runner, _get_runner, connect,
    try_finally, disconnect, _query_trip, _query_zone, _query_building,
    bind, emit, ret, raise,
    fetch_trips, fetch_zones, fetch_buildings, the_runner;
  cbn [fst snd client uri prefix app].

Section Runs.

Context `{Shapely} `{Calendar} `{Environ} `{Milvus}.

Lemma records_frame {R : Type} (schema : list string) (order : list (sortkey R))
  (results : list R) :
  schema <> [] ->
  (if empty (DataFrame_records schema results)
   then DataFrame_columns schema
   else df_sort_values order (DataFrame_records schema results))
  = mkDataFrame schema (sort_values order results).
Proof.
  intros Hs. destruct results as [|r results]; [reflexivity|].
  destruct schema as [|c schema]; [congruence|]. reflexivity.
Qed.

Lemma q4_join_no_trips (zone_df : list Zone) : q4_join [] zone_df = [].
Proof. induction zone_df; simpl; auto. Qed.

Lemma q6_join_no_trips (zone_df : list Zone) : q6_join [] zone_df = [].
Proof. induction zone_df; simpl; auto. Qed.

Lemma q8_join_no_trips (building_df : list Building) :
  q8_join [] building_df = [].
Proof. induction building_df; simpl; auto. Qed.

Lemma q10_stats_no_trips (zone_row : Zone) :
  q10_stats [] zone_row = q10_no_trips zone_row.
Proof. reflexivity. Qed.

Lemma find_zone_no_zones (point : geom) : find_zone [] point = None.
Proof. reflexivity. Qed.

Lemma q11_count_no_zones (trip_df : list Trip) : q11_count [] trip_df = 0.
Proof.
  unfold q11_count, len. induction trip_df as [|t l IH]; simpl; auto.
Qed.

Definition q1_center : geom := Point (-1117610 # 10000) (348697 # 10000).

Definition q1_filter : string :=
  "GEOM_DWITHIN(t_pickuploc, 'POINT(-111.7610 34.8697)', 0.45)".

Definition q3_filter : string :=
  "GEOM_DWITHIN(t_pickuploc, 'POLYGON((-111.9060 34.7347, -111.6160 34.7347, -111.6160 35.0047, -111.9060 35.0047, -111.9060 34.7347))', 0.045)".

Definition q6_filter : string :=
  "GEOM_INTERSECTS(z_boundary, 'POLYGON((-112.2110 34.4197, -111.3110 34.4197, -111.3110 35.3197, -112.2110 35.3197, -112.2110 34.4197))')".

Definition q2_filter (county_wkt : string) : string :=
  ("GEOM_INTERSECTS(t_pickuploc, '" ++ county_wkt ++ "')")%string.

Lemma q1_run :
  result q1 = Return (mkDataFrame R1.schema
    (sort_values R1.order (map (q1_row q1_center) (fetch_trips q1_filter 1000000)))).
Proof.
  unfold q1. run_query. fold q1_filter q1_center.
  destruct (query_trip _ _ _); reflexivity.
Qed.

Lemma q2_run :
  result q2 = Return (mkDataFrame R2.schema
    [R2.mk match fetch_zones "z_name == 'Coconino County'" 1 with
           | [] => 0
           | zone0 :: _ => len (fetch_trips (q2_filter (z_boundary zone0)) 10000000)
           end]).
Proof.
  unfold q2. run_query. destruct (query_zone _ _ _); reflexivity.
Qed.

Lemma q3_run :
  result q3 = Return (mkDataFrame R3.schema
    (sort_values R3.order
       (map q3_agg (groupby q3_month (fetch_trips q3_filter 10000000))))).
Proof.
  unfold q3. run_query. fold q3_filter.
  destruct (query_trip _ _ _); reflexivity.
Qed.

Lemma q4_run :
  result q4 = Return (mkDataFrame R4.schema
    (sort_values R4.order
       (q4_join (q4_top_trips (fetch_trips "" 10000000))
          (fetch_zones "" 100000)))).
Proof.
  unfold q4. run_query.
  destruct (query_trip _ _ _) as [|t trips]; cbn [fst snd].
  - unfold q4_top_trips. cbn [sort_values fold_right firstn].
    now rewrite q4_join_no_trips.
  - destruct (query_zone _ _ _) as [|z zones]; cbn [fst snd].
    + reflexivity.
    + match goal with
      | |- context [q4_join ?tt ?zz] =>
          pose proof (records_frame R4.schema R4.order (q4_join tt zz)) as E
      end.
      destruct (empty _); cbn [fst]; f_equal; apply E; discriminate.
Qed.

Lemma q6_run :
  result q6 = Return (mkDataFrame R6.schema
    (sort_values R6.order
       (q6_join (fetch_trips "" 10000000) (fetch_zones q6_filter 100000)))).
Proof.
  unfold q6. run_query. fold q6_filter.
  destruct (query_zone _ _ _) as [|z zones]; cbn [fst snd].
  - reflexivity.
  - destruct (query_trip _ _ _) as [|t trips]; cbn [fst snd].
    + now rewrite q6_join_no_trips.
    + match goal with
      | |- context [q6_join ?tt ?zz] =>
          pose proof (records_frame R6.schema R6.order (q6_join tt zz)) as E
      end.
      destruct (empty _); cbn [fst]; f_equal; apply E; discriminate.
Qed.

Lemma q8_run :
  result q8 = Return (mkDataFrame R8.schema
    (sort_values R8.order
       (q8_join (fetch_trips "" 10000000) (fetch_buildings "" 1000000)))).
Proof.
  unfold q8. run_query.
  destruct (query_building _ _ _) as [|b buildings]; cbn [fst snd].
  - reflexivity.
  - destruct (query_trip _ _ _) as [|t trips]; cbn [fst snd].
    + now rewrite q8_join_no_trips.
    + match goal with
      | |- context [q8_join ?tt ?zz] =>
          pose proof (records_frame R8.schema R8.order (q8_join tt zz)) as E
      end.
      destruct (empty _); cbn [fst]; f_equal; apply E; discriminate.
Qed.

Lemma q9_run :
  result q9 = Return (mkDataFrame R9.schema
    (sort_values R9.order (q9_pairs (fetch_buildings "" 1000000)))).
Proof.
  unfold q9. run_query.
  destruct (query_building _ _ _) as [|b buildings]; cbn [fst snd].
  - reflexivity.
  - match goal with
    | |- context [q9_pairs ?bb] =>
        pose proof (records_frame R9.schema R9.order (q9_pairs bb)) as E
    end.
    destruct (empty _); cbn [fst]; f_equal; apply E; discriminate.
Qed.

Lemma q10_run :
  result q10 = Return (mkDataFrame R10.schema
    (sort_values R10.order
       (map (q10_stats (fetch_trips "" 10000000)) (fetch_zones "" 1000000)))).
Proof.
  unfold q10. run_query.
  destruct (query_zone _ _ _) as [|z zones]; cbn [fst snd].
  - reflexivity.
  - destruct (query_trip _ _ _) as [|t trips]; reflexivity.
Qed.

Lemma q11_run :
  result q11 = Return (mkDataFrame R11.schema
    [R11.mk (q11_count (fetch_zones "" 1000000) (fetch_trips "" 10000000))]).
Proof.
  unfold q11. run_query.
  destruct (query_zone _ _ _) as [|z zones]; cbn [fst snd].
  - now rewrite q11_count_no_zones.
  - destruct (query_trip _ _ _) as [|t trips]; reflexivity.
Qed.

End Runs.

(** * Q9: the IoU of intersecting building pairs *)

(** The three-way rule for the IoU, in the words of the design. *)
Definition iou_three_way (intersectionArea unionArea iou : Q) : Prop :=
  ((0 < unionArea)%Q -> iou = (intersectionArea / unionArea)%Q) /\
  ((unionArea == 0)%Q -> (0 < intersectionArea)%Q -> iou = 1%Q) /\
  ((unionArea == 0)%Q -> (intersectionArea == 0)%Q -> iou = 0%Q).

Lemma Qgtb_true (x y : Q) : Qgtb x y = true <-> (y < x)%Q.
Proof.
  unfold Qgtb. rewrite negb_true_iff, <- not_true_iff_false, Qle_bool_iff.
  split; [apply Qnot_le_lt | apply Qlt_not_le].
Qed.

Lemma Qgtb_false (x y : Q) : Qgtb x y = false <-> (x <= y)%Q.
Proof. unfold Qgtb. now rewrite negb_false_iff, Qle_bool_iff. Qed.

Lemma q9_iou_three_way (overlap_area union_area : Q) :
  iou_three_way overlap_area union_area (q9_iou overlap_area union_area).
Proof.
  unfold iou_three_way, q9_iou. repeat split.
  - intros Hu. apply Qgtb_true in Hu. now rewrite Hu.
  - intros Hu Ho.
    assert (E : Qgtb union_area 0 = false)
      by (apply Qgtb_false; rewrite Hu; apply Qle_refl).
    apply Qgtb_true in Ho. now rewrite E, Ho.
  - intros Hu Ho.
    assert (E : Qgtb union_area 0 = false)
      by (apply Qgtb_false; rewrite Hu; apply Qle_refl).
    assert (E' : Qgtb overlap_area 0 = false)
      by (apply Qgtb_false; rewrite Ho; apply Qle_refl).
    now rewrite E, E'.
Qed.

Section Conflation.

Context `{Shapely} `{Calendar} `{Environ} `{Milvus}.

(** The row Q9 owes to a pair of buildings: keys, areas, overlap. *)
Definition row_of_pair (b1 b2 : Building) (r : R9.row) : Prop :=
  R9.building_1 r = b_buildingkey b1 /\
  R9.building_2 r = b_buildingkey b2 /\
  R9.area1 r = area (boundary_geom b1) /\
  R9.area2 r = area (boundary_geom b2) /\
  R9.overlap_area r
  = area (intersection (boundary_geom b1) (boundary_geom b2)).

Definition row_iou_ok (r : R9.row) : Prop :=
  iou_three_way (R9.overlap_area r)
    (R9.area1 r + R9.area2 r - R9.overlap_area r) (R9.iou r).

Lemma q9_pair_iou_ok (b1 b2 : Building) : Forall row_iou_ok (q9_pair b1 b2).
Proof.
  unfold q9_pair. destruct (intersects _ _); constructor; [|constructor].
  apply q9_iou_three_way.
Qed.

Lemma q9_pairs_iou_ok (buildings : list Building) :
  Forall row_iou_ok (q9_pairs buildings).
Proof.
  induction buildings as [|b1 rest IH]; simpl; [constructor|].
  apply Forall_app; split; trivial.
  apply Forall_flat_map, Forall_forall. intros b2 _. apply q9_pair_iou_ok.
Qed.

Lemma q9_pair_row (b1 b2 : Building) :
  intersects (boundary_geom b1) (boundary_geom b2) = true ->
  exists r, q9_pair b1 b2 = [r] /\ row_of_pair b1 b2 r.
Proof.
  intros Hi. unfold q9_pair. rewrite Hi.
  eexists; split; [reflexivity|]. now repeat split.
Qed.

Lemma q9_pairs_later (before buildings : list Building) (r : R9.row) :
  In r (q9_pairs buildings) -> In r (q9_pairs (before ++ buildings)).
Proof.
  induction before as [|b before IH]; simpl; trivial.
  intros Hr. apply in_or_app. right. auto.
Qed.

Lemma q9_pairs_in (l1 l2 l3 : list Building) (b1 b2 : Building) (r : R9.row) :
  In r (q9_pair b1 b2) ->
  In r (q9_pairs (l1 ++ b1 :: l2 ++ b2 :: l3)).
Proof.
  intros Hr. apply q9_pairs_later. simpl. apply in_or_app. left.
  apply in_flat_map. exists b2. split; trivial.
  apply in_or_app. right. now left.
Qed.

(** C1. For every pair of buildings whose boundaries intersect, Q9 reports a
    row with their keys, areas and overlap, and in every row of Q9 the IoU
    follows the three-way branch on [unionArea = area1 + area2 -
    intersectionArea]: the quotient when the union is positive, 1.0 when
    the union is zero and the intersection positive, 0.0 when both are zero. *)
Theorem q9_iou_three_way_branch :
  exists df, result q9 = Return df /\
    Forall row_iou_ok (data df) /\
    forall l1 b1 l2 b2 l3,
      fetch_buildings "" 1000000 = l1 ++ b1 :: l2 ++ b2 :: l3 ->
      intersects (boundary_geom b1) (boundary_geom b2) = true ->
      exists r, In r (data df) /\ row_of_pair b1 b2 r /\ row_iou_ok r.
Proof.
  eexists. split; [apply q9_run|]. cbn [data].
  assert (F : Forall row_iou_ok
                (sort_values R9.order (q9_pairs (fetch_buildings "" 1000000)))).
  { eapply Permutation_Forall; [apply Permutation_sym, sort_values_perm|].
    apply q9_pairs_iou_ok. }
  split; trivial.
  intros l1 b1 l2 b2 l3 E Hi.
  destruct (q9_pair_row b1 b2 Hi) as [r [Er Hr]].
  assert (Hin : In r (sort_values R9.order
                        (q9_pairs (fetch_buildings "" 1000000)))).
  { eapply Permutation_in; [apply Permutation_sym, sort_values_perm|].
    rewrite E. apply q9_pairs_in. rewrite Er. now left. }
  exists r. split; [exact Hin|]. split; [exact Hr|].
  rewrite Forall_forall in F. now apply F.
Qed.

End Conflation.

(** * Unsupported queries *)

(** The exception a computation ends in names every one of [primitives]. *)
Definition raises_naming {A : Type} (m : IO A) (primitives : list string)
  : Prop :=
  exists msg, result m = Raise (NotImplementedError msg) /\
    Forall (fun p => is_infix p msg = true) primitives.

(** C3. Q5 (convex hull, collect, area), Q7 (make-line, length) and Q12
    (K-nearest-neighbor join) always raise the module's unsupported-query
    error, a [NotImplementedError] whose message names the missing
    primitives, and they do so before any client event: no connection, no
    backend fetch. *)
Theorem unsupported_queries_fail_fast :
  (raises_naming q5 ["ST_ConvexHull"; "ST_Collect"; "ST_Area"]
   /\ trace q5 = [] /\ fetches q5 = []) /\
  (raises_naming q7 ["ST_MakeLine"; "ST_Length"]
   /\ trace q7 = [] /\ fetches q7 = []) /\
  (raises_naming q12 ["ST_KNN"]
   /\ trace q12 = [] /\ fetches q12 = []).
Proof.
  repeat split; try reflexivity;
    (eexists; split; [reflexivity|]);
    repeat constructor.
Qed.

(** * Q2: the containment count *)

Section Containment.

Context `{Environ} `{Milvus}.

Definition county_filter : string := "z_name == 'Coconino County'".

(** C9. Without a zone named 'Coconino County', Q2 returns the single row
    [trip_count_in_coconino_county = 0] (no exception, no empty frame, and
    no trip fetch); with one, the count is the number of trip rows the
    backend returns for the intersects filter built from that zone's
    boundary. *)
Theorem q2_count_or_zero :
  (fetch_zones county_filter 1 = [] ->
   result q2 = Return (mkDataFrame ["trip_count_in_coconino_county"] [R2.mk 0])
   /\ fetches q2
      = [Query (_collection_name the_runner "zone") county_filter
           ["z_boundary"] 1]) /\
  (forall zone0 rest, fetch_zones county_filter 1 = zone0 :: rest ->
   result q2
   = Return (mkDataFrame ["trip_count_in_coconino_county"]
       [R2.mk (len (fetch_trips
                      ("GEOM_INTERSECTS(t_pickuploc, '" ++ z_boundary zone0
                       ++ "')")%string 10000000))])).
Proof.
  split.
  - intros E. split.
    + rewrite q2_run. fold county_filter. now rewrite E.
    + revert E. unfold q2. run_query. intros E.
      unfold county_filter in E. rewrite E. reflexivity.
  - intros zone0 rest E. rewrite q2_run. fold county_filter.
    now rewrite E.
Qed.

End Containment.

(** * Empty inputs *)

Definition returns_rows {R : Type} (q : IO (DataFrame R)) (schema : list string)
  (rows : list R) : Prop :=
  result q = Return (mkDataFrame schema rows).

Section EmptyInputs.

Context `{Shapely} `{Calendar} `{Environ} `{Milvus}.

(** Every supported query returns a frame with its declared columns,
    whatever the server holds. *)
Lemma supported_queries_return :
  (exists rows, returns_rows q1 R1.schema rows) /\
  (exists rows, returns_rows q2 R2.schema rows) /\
  (exists rows, returns_rows q3 R3.schema rows) /\
  (exists rows, returns_rows q4 R4.schema rows) /\
  (exists rows, returns_rows q6 R6.schema rows) /\
  (exists rows, returns_rows q8 R8.schema rows) /\
  (exists rows, returns_rows q9 R9.schema rows) /\
  (exists rows, returns_rows q10 R10.schema rows) /\
  (exists rows, returns_rows q11 R11.schema rows).
Proof.
  unfold returns_rows.
  repeat split; eexists;
    first [apply q1_run | apply q2_run | apply q3_run | apply q4_run
          | apply q6_run | apply q8_run | apply q9_run | apply q10_run
          | apply q11_run].
Qed.

(** C4. When a collection a supported query fetches comes back empty, the
    query returns (it never raises) a frame with the columns of its declared
    schema: no row for Q1, Q3, Q4, Q6, Q8, Q9 and for Q10 without zones; the
    single zero count for Q2 and Q11; and for Q10 without trips one row per
    zone with [num_trips = 0] and no averages. *)
Theorem empty_inputs_give_well_formed_results :
  (fetch_trips q1_filter 1000000 = [] -> returns_rows q1 R1.schema []) /\
  (fetch_zones county_filter 1 = [] -> returns_rows q2 R2.schema [R2.mk 0]) /\
  (forall zone0 rest, fetch_zones county_filter 1 = zone0 :: rest ->
     fetch_trips (q2_filter (z_boundary zone0)) 10000000 = [] ->
     returns_rows q2 R2.schema [R2.mk 0]) /\
  (fetch_trips q3_filter 10000000 = [] -> returns_rows q3 R3.schema []) /\
  (fetch_trips "" 10000000 = [] \/ fetch_zones "" 100000 = [] ->
     returns_rows q4 R4.schema []) /\
  (fetch_zones q6_filter 100000 = [] \/ fetch_trips "" 10000000 = [] ->
     returns_rows q6 R6.schema []) /\
  (fetch_buildings "" 1000000 = [] \/ fetch_trips "" 10000000 = [] ->
     returns_rows q8 R8.schema []) /\
  (fetch_buildings "" 1000000 = [] -> returns_rows q9 R9.schema []) /\
  (fetch_zones "" 1000000 = [] -> returns_rows q10 R10.schema []) /\
  (fetch_trips "" 10000000 = [] ->
     exists rows, returns_rows q10 R10.schema rows /\
       Permutation rows (map q10_no_trips (fetch_zones "" 1000000))) /\
  (fetch_zones "" 1000000 = [] \/ fetch_trips "" 10000000 = [] ->
     returns_rows q11 R11.schema [R11.mk 0]).
Proof.
  unfold returns_rows.
  repeat match goal with |- _ /\ _ => split end.
  - intros E. now rewrite q1_run, E.
  - unfold county_filter. intros E. now rewrite q2_run, E.
  - unfold county_filter. intros zone0 rest E E'. now rewrite q2_run, E, E'.
  - intros E. now rewrite q3_run, E.
  - intros [E|E]; rewrite q4_run, E.
    + unfold q4_top_trips. simpl. now rewrite q4_join_no_trips.
    + reflexivity.
  - intros [E|E]; rewrite q6_run, E.
    + reflexivity.
    + now rewrite q6_join_no_trips.
  - intros [E|E]; rewrite q8_run, E.
    + reflexivity.
    + now rewrite q8_join_no_trips.
  - intros E. now rewrite q9_run, E.
  - intros E. now rewrite q10_run, E.
  - intros E. eexists. split.
    + rewrite q10_run, E. reflexivity.
    + rewrite sort_values_perm. apply Permutation_refl.
  - intros [E|E]; rewrite q11_run, E.
    + now rewrite q11_count_no_zones.
    + reflexivity.
Qed.

End EmptyInputs.

(** * Result order *)

(** Ascending integer keys, as [sort_values] takes them. *)
Definition ascending_keys {R : Type} (pks : list (R -> Z)) : list (sortkey R) :=
  map (fun f => by_ (fun r => SInt (f r)) true) pks.

(** [a] is not after [b] in the lexicographic order of the integer keys. *)
Fixpoint keys_le {R : Type} (pks : list (R -> Z)) (a b : R) : Prop :=
  match pks with
  | [] => True
  | f :: fs => f a < f b \/ (f a = f b /\ keys_le fs a b)
  end.

(** [a] comes before [b] in [rows]. *)
Definition precedes {R : Type} (rows : list R) (a b : R) : Prop :=
  exists l1 l2 l3, rows = l1 ++ a :: l2 ++ b :: l3.

(** The order contract of a result: sorted by the comparator of the keys
    [earlier] followed by the entity keys [pks] ascending; rows that tie on
    [earlier] come by ascending entity key; and rows with no value in the
    leading key come after all rows with one. *)
Definition well_ordered {R : Type} (earlier : list (sortkey R))
  (pks : list (R -> Z)) (rows : list R) : Prop :=
  StronglySorted (row_le (earlier ++ ascending_keys pks)) rows /\
  (forall a b, precedes rows a b ->
     rows_compare earlier a b = Eq -> keys_le pks a b) /\
  (forall k a b, hd_error earlier = Some k -> precedes rows a b ->
     isna (column k a) = true -> isna (column k b) = true).

Section OrderFacts.

Context {R : Type}.
Implicit Types (ks : list (sortkey R)) (a b : R) (rows : list R).

Lemma rows_compare_app ks ks' a b :
  rows_compare (ks ++ ks') a b
  = match rows_compare ks a b with
    | Eq => rows_compare ks' a b
    | c => c
    end.
Proof.
  induction ks as [|k ks IH]; simpl; trivial.
  destruct (key_compare _ _ _); trivial.
Qed.

Lemma key_compare_int (x y : Z) :
  key_compare true (SInt x) (SInt y) = (x ?= y).
Proof.
  unfold key_compare, number, Qcompare, inject_Z. simpl.
  now rewrite !Z.mul_1_r.
Qed.

Lemma row_le_keys (pks : list (R -> Z)) a b :
  row_le (ascending_keys pks) a b -> keys_le pks a b.
Proof.
  unfold row_le. induction pks as [|f fs IH]; simpl; trivial.
  rewrite key_compare_int.
  destruct (f a ?= f b) eqn:E.
  - apply Z.compare_eq in E. auto.
  - rewrite Z.compare_lt_iff in E. auto.
  - congruence.
Qed.

Lemma sorted_precedes ks rows a b :
  StronglySorted (row_le ks) rows -> precedes rows a b -> row_le ks a b.
Proof.
  intros S (l1 & l2 & l3 & ->).
  induction l1 as [|x l1 IH]; simpl in S.
  - inversion S as [|? ? _ F]; subst. rewrite Forall_forall in F.
    apply F, in_or_app. right. now left.
  - inversion S; subst. auto.
Qed.

Lemma key_compare_na_last (asc : bool) (s t : scalar) :
  isna s = true -> isna t = false -> key_compare asc s t = Gt.
Proof.
  destruct s as [x|[q|]], t as [y|[q'|]]; simpl; try discriminate; trivial.
Qed.

Lemma sorted_well_ordered (earlier : list (sortkey R)) (pks : list (R -> Z))
  rows :
  StronglySorted (row_le (earlier ++ ascending_keys pks)) rows ->
  well_ordered earlier pks rows.
Proof.
  intros S. split; [exact S|]. split.
  - intros a b P E. apply row_le_keys.
    pose proof (sorted_precedes _ _ _ _ S P) as L.
    unfold row_le in *. now rewrite rows_compare_app, E in L.
  - intros k a b Hk P Na.
    pose proof (sorted_precedes _ _ _ _ S P) as L.
    destruct earlier as [|k' earlier']; [discriminate|].
    injection Hk as ->. unfold row_le in L. simpl in L.
    destruct (isna (column k b)) eqn:Nb; trivial.
    rewrite (key_compare_na_last _ _ _ Na Nb) in L. congruence.
Qed.

End OrderFacts.

Section ResultOrder.

Context `{Shapely} `{Calendar} `{Environ} `{Milvus}.

(** A query that returns rows in the order contract. *)
Definition returns_ordered {R : Type} (q : IO (DataFrame R))
  (earlier : list (sortkey R)) (pks : list (R -> Z)) : Prop :=
  exists df, result q = Return df /\ well_ordered earlier pks (data df).

(** A query that returns exactly one row. *)
Definition returns_one_row {R : Type} (q : IO (DataFrame R)) : Prop :=
  exists df r, result q = Return df /\ data df = [r].

(** C7. Every supported query returns its rows sorted by its multi-key
    comparator, whose last keys are the entity key, ascending: rows that tie
    on the earlier keys come by ascending entity key, and rows whose leading
    sort value is missing come last, also where that key is descending (the
    average duration of Q10). Q2 and Q11 return a single row. *)
Theorem results_are_sorted_with_key_tie_break :
  returns_ordered q1
    [by_ (fun r => SFloat (Fin (R1.distance_to_center r))) true]
    [R1.t_tripkey] /\
  returns_one_row q2 /\
  returns_ordered q3 [] [R3.pickup_month] /\
  returns_ordered q4
    [by_ (fun r => SInt (R4.trip_count r)) false] [R4.z_zonekey] /\
  returns_ordered q6
    [by_ (fun r => SInt (R6.total_pickups r)) false] [R6.z_zonekey] /\
  returns_ordered q8
    [by_ (fun r => SInt (R8.nearby_pickup_count r)) false]
    [R8.b_buildingkey] /\
  returns_ordered q9
    [by_ (fun r => SFloat (Fin (R9.iou r))) false]
    [R9.building_1; R9.building_2] /\
  returns_ordered q10
    [by_ (fun r => SFloat (R10.avg_duration r)) false] [R10.z_zonekey] /\
  returns_one_row q11.
Proof.
  unfold returns_ordered, returns_one_row.
  repeat match goal with |- _ /\ _ => split end.
  - eexists. split; [apply q1_run|].
    apply sorted_well_ordered, (sort_values_sorted R1.order).
  - do 2 eexists. split; [apply q2_run|reflexivity].
  - eexists. split; [apply q3_run|].
    apply sorted_well_ordered, (sort_values_sorted R3.order).
  - eexists. split; [apply q4_run|].
    apply sorted_well_ordered, (sort_values_sorted R4.order).
  - eexists. split; [apply q6_run|].
    apply sorted_well_ordered, (sort_values_sorted R6.order).
  - eexists. split; [apply q8_run|].
    apply sorted_well_ordered, (sort_values_sorted R8.order).
  - eexists. split; [apply q9_run|].
    apply sorted_well_ordered, (sort_values_sorted R9.order).
  - eexists. split; [apply q10_run|].
    apply sorted_well_ordered, (sort_values_sorted R10.order).
  - do 2 eexists. split; [apply q11_run|reflexivity].
Qed.

End ResultOrder.

(** * Q4: the top trips by tip *)

Lemma NoDup_map_eq {A B : Type} (f : A -> B) (l : list A) (a b : A) :
  NoDup (map f l) -> In a l -> In b l -> f a = f b -> a = b.
Proof.
  induction l as [|x l IH]; simpl; [tauto|].
  intros N Ia Ib E. inversion N as [|? ? Nx N']; subst.
  destruct Ia as [->|Ia], Ib as [->|Ib]; trivial.
  - exfalso. apply Nx. rewrite E. now apply in_map.
  - exfalso. apply Nx. rewrite <- E. now apply in_map.
  - auto.
Qed.

Lemma q4_order_tie (a b : Trip) :
  rows_compare q4_order a b = Eq -> t_tripkey a = t_tripkey b.
Proof.
  unfold q4_order. cbn [rows_compare column ascending].
  destruct (key_compare false _ _); try discriminate.
  rewrite key_compare_int.
  destruct (t_tripkey a ?= t_tripkey b) eqn:E; try discriminate.
  intros _. now apply Z.compare_eq.
Qed.

Lemma q4_sort_deterministic (trips1 trips2 : list Trip) :
  NoDup (map t_tripkey trips1) -> Permutation trips1 trips2 ->
  sort_values q4_order trips1 = sort_values q4_order trips2.
Proof.
  intros N P. apply (sorted_perm_unique q4_order).
  - intros a b Ia Ib E.
    apply (NoDup_map_eq t_tripkey trips1); trivial.
    + eapply Permutation_in; [apply sort_values_perm | exact Ia].
    + eapply Permutation_in; [apply sort_values_perm | exact Ib].
    + now apply q4_order_tie.
  - rewrite !sort_values_perm. exact P.
  - apply sort_values_sorted.
  - apply sort_values_sorted.
Qed.

(** C10. The top trips of Q4 are the first 1000 of the fetched trips put in
    order of tip descending, then trip key ascending; with unique trip keys
    they are the same list for any two orders in which the backend may
    return the same trip rows. *)
Theorem q4_top_trips_deterministic (trips1 trips2 : list Trip) :
  NoDup (map t_tripkey trips1) ->
  Permutation trips1 trips2 ->
  q4_top_trips trips1 = q4_top_trips trips2 /\
  exists sorted,
    q4_top_trips trips1 = firstn 1000 sorted /\
    Permutation sorted trips1 /\
    well_ordered [by_ (fun t => SFloat (Fin (t_tip t))) false] [t_tripkey]
      sorted.
Proof.
  intros N P. split.
  - unfold q4_top_trips. now rewrite (q4_sort_deterministic _ _ N P).
  - exists (sort_values q4_order trips1). split; [reflexivity|]. split.
    + apply sort_values_perm.
    + apply sorted_well_ordered, (sort_values_sorted q4_order).
Qed.

Lemma q4_top_trips_deterministic_witness :
  let t1 := Fixture.trip 1 "POINT(0.5 0.5)" "POINT(3 3)" 2 in
  let t2 := Fixture.trip 2 "POINT(3 3)" "POINT(3 3)" 5 in
  let t3 := Fixture.trip 3 "POINT(3 3)" "POINT(0.5 0.5)" 2 in
  q4_top_trips [t1; t2; t3] = q4_top_trips [t3; t2; t1] /\
  q4_top_trips [t1; t2; t3] = [t2; t1; t3].
Proof.
  intros t1 t2 t3. split; [|reflexivity].
  apply (q4_top_trips_deterministic [t1; t2; t3] [t3; t2; t1]).
  - repeat constructor; simpl; intuition discriminate.
  - apply (Permutation_rev [t1; t2; t3]).
Defined.

(** * Q11: which zone a point is assigned to *)

Section ZoneAssignment.

Context `{Shapely}.

Definition outside (point : geom) (zone : Zone) : Prop :=
  contains (zone_geom zone) point = false.

Definition ascending_by_key (zones : list Zone) : Prop :=
  StronglySorted (fun z z' => z_zonekey z <= z_zonekey z') zones.

Lemma find_zone_first_match (zones : list Zone) (point : geom) :
  match find_zone zones point with
  | Some key =>
      exists before zone after,
        zones = before ++ zone :: after /\
        key = z_zonekey zone /\
        contains (zone_geom zone) point = true /\
        Forall (outside point) before
  | None => Forall (outside point) zones
  end.
Proof.
  induction zones as [|z zones IH]; simpl; [constructor|].
  destruct (contains (zone_geom z) point) eqn:C.
  - exists [], z, zones. repeat split; auto.
  - destruct (find_zone zones point) as [key|].
    + destruct IH as (before & zone & after & -> & -> & Hc & Hb).
      exists (z :: before), zone, after. repeat split; auto.
    + constructor; auto.
Qed.

Lemma find_zone_least_key (zones : list Zone) (point : geom) (key : Z) :
  ascending_by_key zones ->
  find_zone zones point = Some key ->
  Forall (fun z => contains (zone_geom z) point = true -> key <= z_zonekey z)
    zones.
Proof.
  unfold ascending_by_key.
  induction 1 as [|z zones S IH F]; simpl; [constructor|].
  destruct (contains (zone_geom z) point) eqn:C.
  - intros [= <-]. constructor; [lia|].
    eapply Forall_impl; [|exact F]. simpl. auto.
  - intros E. constructor; [congruence | auto].
Qed.

(** C6, as the code has it. The zone [find_zone] assigns to a point is the
    first zone containing it in the order in which the zone rows were
    fetched: every zone before it leaves the point outside. It is the
    containing zone of least key when the rows come in ascending key order;
    the query itself does not sort them. *)
Theorem find_zone_first_in_fetch_order (zones : list Zone) (point : geom) :
  match find_zone zones point with
  | Some key =>
      exists before zone after,
        zones = before ++ zone :: after /\
        key = z_zonekey zone /\
        contains (zone_geom zone) point = true /\
        Forall (outside point) before
  | None => Forall (outside point) zones
  end /\
  (ascending_by_key zones ->
   forall key, find_zone zones point = Some key ->
     Forall (fun z => contains (zone_geom z) point = true ->
                      key <= z_zonekey z) zones).
Proof.
  split.
  - apply find_zone_first_match.
  - intros S key. now apply find_zone_least_key.
Qed.

End ZoneAssignment.

Section ZoneAssignmentScenario.

Import Fixture.

(** C6, as stated, fails. A pickup at (0.5, 0.5) lies in zone 1 and in
    zone 2; with the rows fetched as zone 2, zone 1 it is assigned zone 2,
    not the zone of least key, and the cross-zone count of Q11 for the trip
    from there to (3, 3) changes with the order of the same two rows. *)
Lemma find_zone_not_by_ascending_key :
  let point := loads "POINT(0.5 0.5)" in
  let t := trip 7 "POINT(0.5 0.5)" "POINT(3 3)" 1 in
  contains (zone_geom zone_a) point = true /\
  contains (zone_geom zone_big) point = true /\
  z_zonekey zone_a = 1 /\
  find_zone [zone_big; zone_a] point = Some 2 /\
  find_zone [zone_a; zone_big] point = Some 1 /\
  result (@q11 shapes no_environ (server [t] [zone_big; zone_a] []))
  = Return (mkDataFrame ["cross_zone_trip_count"] [R11.mk 0]) /\
  result (@q11 shapes no_environ (server [t] [zone_a; zone_big] []))
  = Return (mkDataFrame ["cross_zone_trip_count"] [R11.mk 1]).
Proof. vm_compute. repeat split. Qed.

End ZoneAssignmentScenario.

(** * Q9: which pairs are listed, and in which order *)

Lemma strongly_sorted_precedes {A : Type} (lt : A -> A -> Prop) (l : list A)
  (a b : A) :
  StronglySorted lt l -> precedes l a b -> lt a b.
Proof.
  intros S (l1 & l2 & l3 & ->).
  induction l1 as [|x l1 IH]; simpl in S.
  - inversion S as [|? ? _ F]; subst. rewrite Forall_forall in F.
    apply F, in_or_app. right. now left.
  - inversion S; subst. auto.
Qed.

(** The two keys of a row, smaller first: the unordered pair it stands for. *)
Definition unordered_pair (r : R9.row) : Z * Z :=
  (Z.min (R9.building_1 r) (R9.building_2 r),
   Z.max (R9.building_1 r) (R9.building_2 r)).

Section PairOrder.

Context `{Shapely} `{Calendar} `{Environ} `{Milvus}.

Definition strictly_ascending (buildings : list Building) : Prop :=
  StronglySorted (fun b b' => b_buildingkey b < b_buildingkey b') buildings.

(** The row stands for two buildings, the first fetched before the second. *)
Definition listed_in_fetch_order (buildings : list Building) (r : R9.row)
  : Prop :=
  exists b1 b2, precedes buildings b1 b2 /\
    intersects (boundary_geom b1) (boundary_geom b2) = true /\
    row_of_pair b1 b2 r.

Lemma q9_pair_inv (b1 b2 : Building) (r : R9.row) :
  In r (q9_pair b1 b2) ->
  intersects (boundary_geom b1) (boundary_geom b2) = true /\
  row_of_pair b1 b2 r.
Proof.
  unfold q9_pair. destruct (intersects _ _); simpl; [|tauto].
  intros [<-|[]]. split; trivial. now repeat split.
Qed.

Lemma q9_pairs_inv (buildings : list Building) (r : R9.row) :
  In r (q9_pairs buildings) -> listed_in_fetch_order buildings r.
Proof.
  induction buildings as [|b1 rest IH]; simpl; [tauto|].
  intros Hr. apply in_app_or in Hr. destruct Hr as [Hr|Hr].
  - apply in_flat_map in Hr. destruct Hr as (b2 & Hb2 & Hr).
    apply in_split in Hb2. destruct Hb2 as (l2 & l3 & ->).
    apply q9_pair_inv in Hr. destruct Hr as [Hi Hr].
    exists b1, b2. split; [|now split]. now exists [], l2, l3.
  - destruct (IH Hr) as (b & b' & (l1 & l2 & l3 & ->) & Hi & Hp).
    exists b, b'. split; [|now split]. now exists (b1 :: l1), l2, l3.
Qed.

Lemma q9_row_keys_first (b1 : Building) (rest : list Building) (r : R9.row) :
  In r (flat_map (q9_pair b1) rest) ->
  R9.building_1 r = b_buildingkey b1 /\
  In (R9.building_2 r) (map b_buildingkey rest).
Proof.
  intros Hr. apply in_flat_map in Hr. destruct Hr as (b2 & Hb2 & Hr).
  apply q9_pair_inv in Hr. destruct Hr as [_ (E1 & E2 & _)].
  rewrite E1, E2. split; trivial. now apply in_map.
Qed.

Lemma q9_row_keys (buildings : list Building) (r : R9.row) :
  In r (q9_pairs buildings) ->
  In (R9.building_1 r) (map b_buildingkey buildings) /\
  In (R9.building_2 r) (map b_buildingkey buildings).
Proof.
  intros Hr. apply q9_pairs_inv in Hr.
  destruct Hr as (b1 & b2 & (l1 & l2 & l3 & ->) & _ & E1 & E2 & _).
  rewrite E1, E2. split; apply in_map, in_or_app; right.
  - now left.
  - right. apply in_or_app. right. now left.
Qed.

Lemma q9_first_rows_once (b1 : Building) (rest : list Building) :
  NoDup (map b_buildingkey rest) ->
  NoDup (map unordered_pair (flat_map (q9_pair b1) rest)).
Proof.
  induction rest as [|b2 rest IH]; simpl; [constructor|].
  intros N. inversion N as [|? ? N2 N']; subst.
  rewrite map_app. unfold q9_pair at 1.
  destruct (intersects _ _); simpl; [|auto].
  constructor; [|auto].
  intros Hin. apply in_map_iff in Hin. destruct Hin as (r & E & Hr).
  apply q9_row_keys_first in Hr. destruct Hr as [E1 E2].
  unfold unordered_pair in E. simpl in E. rewrite E1 in E.
  injection E as Emin Emax.
  assert (R9.building_2 r = b_buildingkey b2) by lia.
  apply N2. congruence.
Qed.

Lemma q9_pairs_once (buildings : list Building) :
  NoDup (map b_buildingkey buildings) ->
  NoDup (map unordered_pair (q9_pairs buildings)).
Proof.
  induction buildings as [|b1 rest IH]; simpl; [constructor|].
  intros N. inversion N as [|? ? N1 N']; subst.
  rewrite map_app. apply NoDup_app; repeat split.
  - now apply q9_first_rows_once.
  - auto.
  - intros p Hp Hp'.
    apply in_map_iff in Hp. destruct Hp as (r & <- & Hr).
    apply in_map_iff in Hp'. destruct Hp' as (r' & E & Hr').
    apply q9_row_keys_first in Hr. destruct Hr as [E1 _].
    apply q9_row_keys in Hr'. destruct Hr' as [I1 I2].
    unfold unordered_pair in E. rewrite E1 in E. injection E as Emin Emax.
    assert (b_buildingkey b1 = R9.building_1 r'
            \/ b_buildingkey b1 = R9.building_2 r') as [K|K] by lia;
      apply N1; now rewrite K.
Qed.

Lemma nodup_map_eq {A B : Type} (f : A -> B) (l : list A) (a b : A) :
  NoDup (map f l) -> In a l -> In b l -> f a = f b -> a = b.
Proof.
  induction l as [|x l IH]; cbn [map In]; [tauto|].
  intros N. inversion N as [|? ? Nx N']; subst.
  intros [->|Ha] [->|Hb] E; trivial.
  - exfalso. apply Nx. rewrite E. now apply in_map.
  - exfalso. apply Nx. rewrite <- E. now apply in_map.
  - now apply IH.
Qed.

(** C8, as the code has it. Q9 lists exactly one row per pair of fetched
    buildings whose boundaries intersect, the building fetched first as
    [building_1]: every row stands for such a pair, every such pair has its
    row, and with unique building keys no unordered pair of keys is listed
    twice, in either order, so that the row of a pair is the only row with
    its two keys; and [building_1 < building_2] holds in every row when the
    buildings are fetched in ascending key order, which the query does not
    arrange itself. *)
Theorem q9_pairs_once_in_fetch_order :
  exists df, result q9 = Return df /\
    Forall (listed_in_fetch_order (fetch_buildings "" 1000000)) (data df) /\
    (forall b1 b2,
       precedes (fetch_buildings "" 1000000) b1 b2 ->
       intersects (boundary_geom b1) (boundary_geom b2) = true ->
       exists r, In r (data df) /\ row_of_pair b1 b2 r /\
         (NoDup (map b_buildingkey (fetch_buildings "" 1000000)) ->
          forall r', In r' (data df) ->
            unordered_pair r' = unordered_pair r -> r' = r)) /\
    (NoDup (map b_buildingkey (fetch_buildings "" 1000000)) ->
     NoDup (map unordered_pair (data df))) /\
    (strictly_ascending (fetch_buildings "" 1000000) ->
     Forall (fun r => R9.building_1 r < R9.building_2 r) (data df)).
Proof.
  eexists. split; [apply q9_run|]. cbn [data].
  set (buildings := fetch_buildings "" 1000000).
  assert (F : Forall (listed_in_fetch_order buildings)
                (sort_values R9.order (q9_pairs buildings))).
  { eapply Permutation_Forall; [apply Permutation_sym, sort_values_perm|].
    apply Forall_forall. intros r. apply q9_pairs_inv. }
  assert (Once : NoDup (map b_buildingkey buildings) ->
            NoDup (map unordered_pair
                     (sort_values R9.order (q9_pairs buildings)))).
  { intros N.
    eapply Permutation_NoDup;
      [apply Permutation_map, Permutation_sym, sort_values_perm|].
    now apply q9_pairs_once. }
  split; [exact F|]. split; [|split; [exact Once|]].
  - intros b1 b2 (l1 & l2 & l3 & E) Hi.
    destruct (q9_pair_row b1 b2 Hi) as [r [Er Hr]].
    assert (Hin : In r (sort_values R9.order (q9_pairs buildings))).
    { eapply Permutation_in; [apply Permutation_sym, sort_values_perm|].
      rewrite E. apply q9_pairs_in. rewrite Er. now left. }
    exists r. split; [exact Hin|]. split; [exact Hr|].
    intros N r' Hr' Ep.
    exact (nodup_map_eq unordered_pair _ r' r (Once N) Hr' Hin Ep).
  - intros S. eapply Forall_impl; [|exact F].
    intros r (b1 & b2 & P & _ & E1 & E2 & _). rewrite E1, E2.
    exact (strongly_sorted_precedes _ _ _ _ S P).
Qed.

End PairOrder.

Section PairOrderScenario.

Import Fixture.

(** C8, as stated, fails. Two overlapping unit squares fetched as building 2,
    building 1 give the single row [building_1 = 2], [building_2 = 1]. *)
Lemma q9_lists_pairs_in_fetch_order :
  exists df r,
    result (@q9 shapes no_environ
              (server [] [] [building_shifted; building_unit]))
    = Return df /\
    data df = [r] /\
    R9.building_1 r = 2 /\ R9.building_2 r = 1 /\
    ~ (R9.building_1 r < R9.building_2 r).
Proof.
  do 2 eexists. split; [reflexivity|]. cbn [data].
  split; [reflexivity|]. cbn. repeat split. lia.
Qed.

End PairOrderScenario.

(** * Zones without trips *)

Section OuterJoin.

Context `{Shapely} `{Calendar} `{Environ} `{Milvus}.

(** The row Q10 owes to a zone: its key and name and the number of matching
    trips; without a matching trip no averages and the count 0, else the
    mean of the durations that are present and the mean of the distances. *)
Definition q10_row_of (trip_df : list Trip) (zone : Zone) (r : R10.row)
  : Prop :=
  let matching := matching_trips trip_df zone in
  R10.z_zonekey r = z_zonekey zone /\
  R10.pickup_zone r = z_name zone /\
  R10.num_trips r = len matching /\
  (matching = [] ->
   R10.avg_duration r = NaN /\ R10.avg_distance r = NaN /\
   R10.num_trips r = 0) /\
  (matching <> [] ->
   0 < R10.num_trips r /\
   R10.avg_duration r = nanmean (map duration_seconds matching) /\
   R10.avg_distance r = mean (map t_distance matching)).

Definition has_pickups (trip_df : list Trip) (zone : Zone) : bool :=
  0 <? len (matching_trips trip_df zone).

Definition has_top_pickups (top_trips : list Trip) (zone : Zone) : bool :=
  0 <? q4_count top_trips zone.

Lemma q10_stats_row (trip_df : list Trip) (zone : Zone) :
  q10_row_of trip_df zone (q10_stats trip_df zone).
Proof.
  unfold q10_row_of, q10_stats. cbn zeta.
  destruct (matching_trips trip_df zone) as [|t l] eqn:E.
  - cbn. repeat split; trivial; congruence.
  - replace (0 <? len (t :: l)) with true
      by (symmetry; apply Z.ltb_lt; unfold len; simpl; lia).
    cbn [R10.z_zonekey R10.pickup_zone R10.num_trips R10.avg_duration
         R10.avg_distance].
    split; [reflexivity|]. split; [reflexivity|]. split; [reflexivity|].
    split; [discriminate|]. intros _.
    split; [unfold len; cbn [List.length]; lia|]. split; reflexivity.
Qed.

Lemma q6_join_rows (trip_df : list Trip) (zone_df : list Zone) :
  Forall (fun r => 0 < R6.total_pickups r) (q6_join trip_df zone_df) /\
  List.length (q6_join trip_df zone_df)
  = List.length (filter (has_pickups trip_df) zone_df).
Proof.
  unfold q6_join, has_pickups.
  induction zone_df as [|z l [IHf IHl]]; cbn [flat_map filter].
  - split; [constructor|reflexivity].
  - destruct (0 <? len (matching_trips trip_df z)) eqn:E;
      cbn [app List.length].
    + split; [|now rewrite IHl]. constructor; trivial.
      cbn [R6.total_pickups]. now apply Z.ltb_lt.
    + now split.
Qed.

Lemma q4_join_rows (top_trips : list Trip) (zone_df : list Zone) :
  Forall (fun r => 0 < R4.trip_count r) (q4_join top_trips zone_df) /\
  List.length (q4_join top_trips zone_df)
  = List.length (filter (has_top_pickups top_trips) zone_df).
Proof.
  unfold q4_join, has_top_pickups.
  induction zone_df as [|z l [IHf IHl]]; cbn [flat_map filter].
  - split; [constructor|reflexivity].
  - destruct (0 <? q4_count top_trips z) eqn:E; cbn [app List.length].
    + split; [|now rewrite IHl]. constructor; trivial.
      cbn [R4.trip_count]. now apply Z.ltb_lt.
    + now split.
Qed.

(** C2, as the code has it. Q10, the LEFT JOIN query, returns exactly one
    row per fetched zone, with the zone's key and name; for a zone without
    matching trips both averages are missing and [num_trips] is 0. Q6 and Q4
    return rows only for zones with at least one matching trip: every count
    they report is positive, and they return as many rows as there are such
    zones. *)
Theorem q10_keeps_every_zone :
  (exists df rows,
     result q10 = Return df /\
     Permutation (data df) rows /\
     Forall2 (q10_row_of (fetch_trips "" 10000000))
       (fetch_zones "" 1000000) rows /\
     List.length (data df) = List.length (fetch_zones "" 1000000)) /\
  (exists df,
     result q6 = Return df /\
     Forall (fun r => 0 < R6.total_pickups r) (data df) /\
     List.length (data df)
     = List.length (filter (has_pickups (fetch_trips "" 10000000))
                 (fetch_zones q6_filter 100000))) /\
  (exists df,
     result q4 = Return df /\
     Forall (fun r => 0 < R4.trip_count r) (data df) /\
     List.length (data df)
     = List.length (filter
                 (has_top_pickups (q4_top_trips (fetch_trips "" 10000000)))
                 (fetch_zones "" 100000))).
Proof.
  repeat match goal with |- _ /\ _ => split end.
  - do 2 eexists. split; [apply q10_run|]. cbn [data].
    split; [apply sort_values_perm|]. split.
    + induction (fetch_zones "" 1000000) as [|z l IH]; simpl;
        constructor; trivial. apply q10_stats_row.
    + now rewrite sort_values_length, length_map.
  - eexists. split; [apply q6_run|]. cbn [data].
    destruct (q6_join_rows (fetch_trips "" 10000000)
                (fetch_zones q6_filter 100000)) as [F L].
    split.
    + eapply Permutation_Forall;
        [apply Permutation_sym, sort_values_perm | exact F].
    + now rewrite sort_values_length.
  - eexists. split; [apply q4_run|]. cbn [data].
    destruct (q4_join_rows (q4_top_trips (fetch_trips "" 10000000))
                (fetch_zones "" 100000)) as [F L].
    split.
    + eapply Permutation_Forall;
        [apply Permutation_sym, sort_values_perm | exact F].
    + now rewrite sort_values_length.
Qed.

End OuterJoin.

Section OuterJoinScenario.

Import Fixture.

(** Three zones inside the bounding box of Q6, so that the server returns
    them for its filter too, and one trip picked up in the first of them. *)
Definition one_busy_zone : Milvus :=
  server [trip 1 "POINT(-111.95 34.55)" "POINT(-111.95 34.55)" 1]
    [zone_west; zone_town; zone_east] [].

(** C2, as stated, fails. Of three zones only zone 1 has a matching trip:
    Q6 and Q4 return the row of zone 1 alone, and Q10 returns three rows in
    which the zones 2 and 3 have no averages but the count 0, a value. *)
Lemma zones_without_trips_dropped_or_counted_zero :
  (exists df, result (@q6 shapes clock no_environ one_busy_zone) = Return df /\
     map R6.z_zonekey (data df) = [1]) /\
  (exists df, result (@q4 shapes no_environ one_busy_zone) = Return df /\
     map R4.z_zonekey (data df) = [1]) /\
  (exists df, result (@q10 shapes clock no_environ one_busy_zone) = Return df /\
     map (fun r => (R10.z_zonekey r, isna (SFloat (R10.avg_duration r)),
                    isna (SFloat (R10.avg_distance r)), R10.num_trips r))
       (data df)
     = [(1, false, false, 1); (2, true, true, 0); (3, true, true, 0)]).
Proof.
  repeat split; eexists; (split; [reflexivity|]); vm_compute; reflexivity.
Qed.

End OuterJoinScenario.

(** * The client connection and the fetches of a query *)

Section Lifecycle.

Context `{Shapely} `{Calendar} `{Environ} `{Milvus}.

(** The query connects once, to the configured URI, then only fetches (at
    most [n] times), and closes the connection last. *)
Definition connects_fetches_closes {A : Type} (q : IO A) (n : nat) : Prop :=
  exists queries,
    trace q = Connect (uri the_runner) :: queries ++ [Close] /\
    Forall (fun e => is_query e = true) queries /\
    (1 <= List.length queries <= n)%nat.

Ltac lifecycle :=
  run_query;
  repeat match goal with
    | |- context [match ?l with [] => _ | _ :: _ => _ end] =>
        destruct l; cbn [fst snd app]
    | |- context [if ?b then _ else _] => destruct b; cbn [fst snd app]
    end;
  (match goal with
   | |- exists _, [_; ?a; Close] = _ /\ _ => exists [a]
   | |- exists _, [_; ?a; ?b; Close] = _ /\ _ => exists [a; b]
   end;
   (split; [reflexivity|]); split;
   [repeat (apply Forall_cons; [reflexivity|]); apply Forall_nil
   | cbn [List.length]; lia]).

(** X1. Every supported query opens one connection, to [MILVUS_URI] or the
    default, performs one fetch (Q1, Q2 without the county, Q3, Q9) or at
    most two, and closes the connection as the last thing it does, whatever
    the server answers. *)
Theorem supported_queries_close_their_connection :
  connects_fetches_closes q1 1 /\
  connects_fetches_closes q2 2 /\
  connects_fetches_closes q3 1 /\
  connects_fetches_closes q4 2 /\
  connects_fetches_closes q6 2 /\
  connects_fetches_closes q8 2 /\
  connects_fetches_closes q9 1 /\
  connects_fetches_closes q10 2 /\
  connects_fetches_closes q11 2.
Proof.
  unfold connects_fetches_closes.
  repeat match goal with |- _ /\ _ => split end.
  - unfold q1. lifecycle.
  - unfold q2. lifecycle.
  - unfold q3. lifecycle.
  - unfold q4. lifecycle.
  - unfold q6. lifecycle.
  - unfold q8. lifecycle.
  - unfold q9. lifecycle.
  - unfold q10. lifecycle.
  - unfold q11. lifecycle.
Qed.

End Lifecycle.

(** * The loader: batches and what a load leaves on the server *)

Section LoaderBatches.

Import Loader.

Context `{Parquet}.

(** The batches the insertion loop cuts for the given range of starts. *)
Definition batches_of {A : Type} (rows : list A) (batch_size : Z)
  (starts : list Z) : list (list A) :=
  map (fun i => slice rows i (i + batch_size)) starts.

Lemma len_app {A : Type} (l l' : list A) : len (l ++ l') = len l + len l'.
Proof. unfold len. rewrite length_app. lia. Qed.

Lemma len_slice {A : Type} (rows : list A) (i b : Z) :
  0 <= i < len rows -> 0 < b ->
  len (slice rows i (i + b)) = Z.min b (len rows - i).
Proof.
  unfold slice, clip_index, len. intros Hi Hb.
  destruct (i <? 0) eqn:E1; [apply Z.ltb_lt in E1; lia|].
  destruct (i + b <? 0) eqn:E2; [apply Z.ltb_lt in E2; lia|].
  rewrite length_firstn, length_skipn. lia.
Qed.

Lemma slice_then_rest {A : Type} (rows : list A) (i b : Z) :
  0 <= i < len rows -> 0 < b ->
  slice rows i (i + b) ++ skipn (Z.to_nat (i + b)) rows
  = skipn (Z.to_nat i) rows.
Proof.
  unfold slice, clip_index, len. intros Hi Hb.
  destruct (i <? 0) eqn:E1; [apply Z.ltb_lt in E1; lia|].
  destruct (i + b <? 0) eqn:E2; [apply Z.ltb_lt in E2; lia|].
  replace (Z.to_nat (Z.min i (Z.of_nat (List.length rows)))) with (Z.to_nat i)
    by lia.
  set (k := Z.to_nat (Z.min (i + b) (Z.of_nat (List.length rows))
                      - Z.min i (Z.of_nat (List.length rows)))).
  rewrite <- (firstn_skipn k (skipn (Z.to_nat i) rows)) at 2.
  f_equal. rewrite skipn_skipn.
  destruct (Z.le_gt_cases (i + b) (Z.of_nat (List.length rows))) as [L|G].
  - f_equal. lia.
  - rewrite !skipn_all2; trivial; lia.
Qed.

Lemma range_up_batches {A : Type} (rows : list A) (b : Z) :
  0 < b ->
  forall fuel i, 0 <= i -> (Z.to_nat (len rows - i) <= fuel)%nat ->
    let starts := range_up fuel i (len rows) b in
    List.concat (batches_of rows b starts) = skipn (Z.to_nat i) rows /\
    Forall (fun batch => 0 < len batch <= b) (batches_of rows b starts) /\
    List.length starts = Z.to_nat ((len rows - i + b - 1) / b).
Proof.
  intros Hb. induction fuel as [|fuel IH]; intros i Hi Hf; cbn zeta.
  - cbn [range_up batches_of map List.concat List.length].
    assert (len rows <= i) by lia.
    split; [|split].
    + symmetry. apply skipn_all2. unfold len in *. lia.
    + constructor.
    + assert ((len rows - i + b - 1) / b < 1)
        by (apply Z.div_lt_upper_bound; lia).
      lia.
  - cbn [range_up]. destruct (i <? len rows) eqn:E.
    + apply Z.ltb_lt in E.
      destruct (IH (i + b)) as (C & F & L); [lia | lia |].
      cbn [batches_of map List.concat List.length].
      fold (batches_of rows b (range_up fuel (i + b) (len rows) b)).
      split; [|split].
      * rewrite C. apply slice_then_rest; lia.
      * constructor; trivial. rewrite len_slice by lia. lia.
      * rewrite L.
        replace (len rows - i + b - 1) with (len rows - (i + b) + b - 1 + 1 * b)
          by lia.
        rewrite Z.div_add by lia.
        assert (0 <= (len rows - (i + b) + b - 1) / b)
          by (apply Z.div_pos; lia).
        lia.
    + apply Z.ltb_ge in E.
      cbn [batches_of map List.concat List.length].
      split; [|split].
      * symmetry. apply skipn_all2. unfold len in *. lia.
      * constructor.
      * assert ((len rows - i + b - 1) / b < 1)
          by (apply Z.div_lt_upper_bound; lia).
        lia.
Qed.

(** X2. With a positive batch size the insertion loop cuts the rows into
    consecutive batches that lose and reorder nothing (their concatenation
    is the row list), none empty and none longer than the batch size, and
    there are as many batches as the row count divided by the batch size,
    rounded up. *)
Theorem batches_partition_rows {A : Type} (rows : list A) (batch_size : Z) :
  0 < batch_size ->
  exists starts,
    range 0 (len rows) batch_size = inr starts /\
    List.concat (batches_of rows batch_size starts) = rows /\
    Forall (fun batch => 0 < len batch <= batch_size)
      (batches_of rows batch_size starts) /\
    len (batches_of rows batch_size starts)
    = (len rows + batch_size - 1) / batch_size.
Proof.
  intros Hb. unfold range.
  replace (batch_size =? 0) with false by (symmetry; apply Z.eqb_neq; lia).
  replace (0 <? batch_size) with true by (symmetry; apply Z.ltb_lt; lia).
  eexists. split; [reflexivity|].
  destruct (range_up_batches rows batch_size Hb
              (Z.to_nat (len rows - 0)) 0) as (C & F & L); [lia | lia |].
  cbn zeta in C, F, L. split; [exact C|]. split; [exact F|].
  unfold len at 1. unfold batches_of. rewrite length_map, L.
  rewrite Z.sub_0_r.
  assert (0 <= (len rows + batch_size - 1) / batch_size)
    by (apply Z.div_pos; unfold len; lia).
  lia.
Qed.

Lemma batches_partition_rows_witness :
  exists starts,
    range 0 (len [1; 2; 3; 4; 5]) 2 = inr starts /\
    batches_of [1; 2; 3; 4; 5] 2 starts = [[1; 2]; [3; 4]; [5]].
Proof.
  destruct (batches_partition_rows [1; 2; 3; 4; 5] 2) as (starts & R & _);
    [lia|].
  exists starts. split; [exact R|].
  cbv in R. injection R as <-. reflexivity.
Defined.

End LoaderBatches.

Section LoaderRuns.

Import Loader.

Context `{Parquet}.

Implicit Types (cs : list (string * (CollectionSchema * list milvus_row))).

Lemma contains_key_app cs cs' (k : string) :
  contains_key (cs ++ cs') k = contains_key cs k || contains_key cs' k.
Proof. unfold contains_key, keys. now rewrite map_app, existsb_app. Qed.

Lemma contains_key_removed cs (k : string) :
  contains_key (remove_collection k cs) k = false.
Proof.
  unfold contains_key, keys, remove_collection.
  induction cs as [|[n v] cs IH]; cbn [filter map existsb fst]; trivial.
  destruct (n =? k)%string eqn:E; cbn [negb map existsb fst]; trivial.
  rewrite IH, String.eqb_sym, E. reflexivity.
Qed.

Lemma remove_absent cs (k : string) :
  contains_key cs k = false -> remove_collection k cs = cs.
Proof.
  unfold contains_key, keys, remove_collection.
  induction cs as [|[n v] cs IH]; cbn [filter map existsb fst]; trivial.
  intros E. apply orb_false_iff in E. destruct E as [E1 E2].
  rewrite String.eqb_sym, E1. cbn [negb]. now rewrite IH.
Qed.

Lemma append_rows_last cs (k : string) (schema : CollectionSchema)
  (rows data : list milvus_row) :
  contains_key cs k = false ->
  append_rows k data (cs ++ [(k, (schema, rows))])
  = cs ++ [(k, (schema, rows ++ data))].
Proof.
  unfold contains_key, keys.
  induction cs as [|[n [sc rs]] cs IH]; cbn [app append_rows map existsb fst].
  - now rewrite String.eqb_refl.
  - intros E. apply orb_false_iff in E. destruct E as [E1 E2].
    rewrite String.eqb_sym, E1. now rewrite IH.
Qed.

Lemma insert_batches_run (k : string) (rows : list milvus_row) (b : Z)
  (starts : list Z) cs (schema : CollectionSchema) :
  contains_key cs k = false ->
  forall (total : Z) (rows0 : list milvus_row) (calls0 : list call),
    insert_batches k rows b starts total
      (mkServer (cs ++ [(k, (schema, rows0))]) calls0)
    = (inr (total + len (List.concat (batches_of rows b starts))),
       mkServer
         (cs ++ [(k, (schema, rows0 ++ List.concat (batches_of rows b starts)))])
         (calls0 ++ map (insert k) (batches_of rows b starts))).
Proof.
  intros Hk. induction starts as [|i starts IH]; intros total rows0 calls0.
  - cbn. now rewrite Z.add_0_r, !app_nil_r.
  - cbn [insert_batches batches_of map List.concat].
    fold (batches_of rows b starts).
    unfold lbind at 1, client_insert. cbn [collections calls].
    rewrite contains_key_app, Hk.
    replace (contains_key [(k, (schema, rows0))] k) with true
      by (unfold contains_key; cbn; now rewrite String.eqb_refl).
    cbn [orb]. rewrite (append_rows_last _ _ _ _ _ Hk), IH.
    rewrite len_app, <- !app_assoc. cbn [app]. now rewrite Z.add_assoc.
Qed.

Lemma create_indexes_run (k : string) (cols : list string) (s : server) :
  create_indexes k cols s
  = (inr tt,
     mkServer (collections s)
       (calls s ++ map (fun c => create_index k c "RTREE") cols)).
Proof.
  revert s. induction cols as [|c cols IH]; intros s.
  - cbn. rewrite app_nil_r. now destruct s.
  - cbn [create_indexes map]. unfold lbind, try_pass, client_create_index.
    destruct (index_accepted k c); rewrite IH; cbn [collections calls];
      now rewrite <- app_assoc.
Qed.

(** The calls of a load up to the creation of the collection. *)
Definition opening_calls (k : string) (found : bool) (schema : CollectionSchema)
  : list call :=
  [has_collection k] ++ (if found then [drop_collection k] else [])
  ++ [create_collection k schema].

(** The state in which the insertion loop starts. *)
Lemma load_table_opening (k : string) (schema : CollectionSchema) (s : server) :
  lbind (client_has_collection k) (fun found =>
  lbind (if found then client_drop_collection k else lret tt) (fun _ =>
  client_create_collection k schema)) s
  = (inr tt,
     mkServer (remove_collection k (collections s) ++ [(k, (schema, []))])
       (calls s ++ opening_calls k (contains_key (collections s) k) schema)).
Proof.
  unfold lbind, client_has_collection, opening_calls.
  cbn [collections calls].
  destruct (contains_key (collections s) k) eqn:E.
  - unfold client_drop_collection, client_create_collection.
    cbn [collections calls]. rewrite contains_key_removed.
    now rewrite <- !app_assoc.
  - unfold lret, client_create_collection. cbn [collections calls].
    rewrite E, (remove_absent _ _ E). now rewrite <- !app_assoc.
Qed.

End LoaderRuns.

Section LoaderLoads.

Import Loader.

Context `{Parquet}.

(** The schema [create_collection_schema] builds from a table's entry. *)
Definition schema_of (table_name : string) (config : table_config)
  : CollectionSchema :=
  mkCollectionSchema (map field_schema (schema_fields config))
    ("SpatialBench " ++ table_name ++ " table")%string true.

(** The server after a load that inserted [batches] into collection [k]. *)
Definition loaded (s : server) (k : string) (schema : CollectionSchema)
  (batches : list (list milvus_row)) (closing : list call) : server :=
  mkServer
    (remove_collection k (collections s)
     ++ [(k, (schema, List.concat batches))])
    (calls s ++ opening_calls k (contains_key (collections s) k) schema
     ++ map (insert k) batches ++ closing).

(** The calls that end a load: one index per geometry column, then the
    collection is loaded into memory. *)
Definition closing_calls (k : string) (config : table_config) : list call :=
  map (fun c => create_index k c "RTREE") (geometry_cols config)
  ++ [load_collection k].

Lemma load_table_run (data_dir table_name prefix data_path : string)
  (batch_size : Z) (df : list frame_row) (config : table_config) (s : server) :
  get_parquet_path data_dir table_name = Some data_path ->
  load_parquet_data data_path = inr df ->
  lookup TABLE_CONFIGS table_name = Some config ->
  let k := (prefix ++ "_" ++ table_name)%string in
  let rows := prepare_row_data df table_name in
  let schema := schema_of table_name config in
  load_table_to_milvus data_dir table_name prefix batch_size s
  = match range 0 (len rows) batch_size with
    | inl e => (inl e, loaded s k schema [] [])
    | inr starts =>
        (inr (len (List.concat (batches_of rows batch_size starts))),
         loaded s k schema (batches_of rows batch_size starts)
           (closing_calls k config))
    end.
Proof.
  intros Hp Hd Hc k rows schema.
  pose proof (load_table_opening k schema s) as O.
  unfold load_table_to_milvus. rewrite Hp, Hc. fold k.
  unfold lbind at 1. unfold lift at 1. rewrite Hd. fold rows.
  unfold lbind in O |- *. unfold lift.
  destruct (client_has_collection k s) as [[e|found] s1] eqn:E1;
    [discriminate|].
  destruct ((if found then client_drop_collection k else lret tt) s1)
    as [[e|u] s2] eqn:E2; [discriminate|].
  unfold create_collection_schema. rewrite Hc. fold (schema_of table_name config).
  fold schema. rewrite O.
  unfold loaded, closing_calls.
  destruct (range 0 (len rows) batch_size) as [e|starts].
  - cbn [List.concat map app]. now rewrite app_nil_r.
  - rewrite (insert_batches_run k rows batch_size starts _ _
               (contains_key_removed _ _)).
    rewrite create_indexes_run. unfold log, lret. cbn [collections calls app].
    rewrite Z.add_0_l, <- !app_assoc. reflexivity.
Qed.

(** X3. When the table's data is found and read, the table is known and the
    batch size is positive, a load returns the number of prepared rows and
    leaves the collection [prefix_table] holding exactly those rows, in
    order, under the table's schema, whatever the collection held before;
    the other collections are untouched. The server is asked, in this order:
    whether the collection exists, to drop it if so, to create it, to insert
    each batch, to index each geometry column (a refused index does not stop
    the load) and to load the collection. *)
Theorem load_table_replaces_collection
  (data_dir table_name prefix data_path : string) (batch_size : Z)
  (df : list frame_row) (config : table_config) (s : server) :
  get_parquet_path data_dir table_name = Some data_path ->
  load_parquet_data data_path = inr df ->
  lookup TABLE_CONFIGS table_name = Some config ->
  0 < batch_size ->
  let k := (prefix ++ "_" ++ table_name)%string in
  let rows := prepare_row_data df table_name in
  exists batches,
    List.concat batches = rows /\
    Forall (fun batch => 0 < len batch <= batch_size) batches /\
    load_table_to_milvus data_dir table_name prefix batch_size s
    = (inr (len rows),
       mkServer
         (remove_collection k (collections s)
          ++ [(k, (schema_of table_name config, rows))])
         (calls s
          ++ opening_calls k (contains_key (collections s) k)
               (schema_of table_name config)
          ++ map (insert k) batches
          ++ closing_calls k config)).
Proof.
  intros Hp Hd Hc Hb k rows.
  set (starts := range_up (Z.to_nat (len rows - 0)) 0 (len rows) batch_size).
  assert (R : range 0 (len rows) batch_size = inr starts).
  { unfold range.
    replace (batch_size =? 0) with false by (symmetry; apply Z.eqb_neq; lia).
    now replace (0 <? batch_size) with true by (symmetry; apply Z.ltb_lt; lia). }
  destruct (range_up_batches rows batch_size Hb (Z.to_nat (len rows - 0)) 0)
    as (C & F & _); [lia | lia |].
  cbn zeta in C, F. fold starts in C, F.
  exists (batches_of rows batch_size starts).
  split; [exact C|]. split; [exact F|].
  rewrite (load_table_run _ _ _ _ _ _ _ _ Hp Hd Hc). fold k rows.
  rewrite R. unfold loaded. now rewrite C.
Qed.

(** X4. With a batch size of 0 the same load raises [ValueError], and it
    does so after the old collection was dropped and an empty one created:
    the collection is left without rows, neither indexed nor loaded. *)
Theorem load_table_zero_batch_size
  (data_dir table_name prefix data_path : string)
  (df : list frame_row) (config : table_config) (s : server) :
  get_parquet_path data_dir table_name = Some data_path ->
  load_parquet_data data_path = inr df ->
  lookup TABLE_CONFIGS table_name = Some config ->
  let k := (prefix ++ "_" ++ table_name)%string in
  load_table_to_milvus data_dir table_name prefix 0 s
  = (inl (ValueError "range() arg 3 must not be zero"),
     mkServer
       (remove_collection k (collections s)
        ++ [(k, (schema_of table_name config, []))])
       (calls s
        ++ opening_calls k (contains_key (collections s) k)
             (schema_of table_name config))).
Proof.
  intros Hp Hd Hc k.
  rewrite (load_table_run _ _ _ _ _ _ _ _ Hp Hd Hc). fold k.
  unfold range. cbn [Z.eqb]. unfold loaded. cbn [List.concat map app].
  now rewrite app_nil_r.
Qed.

(** X5. With a negative batch size the loop body never runs: the load
    returns 0 and leaves the collection created, indexed and loaded, but
    empty, and no insert is sent. *)
Theorem load_table_negative_batch_size
  (data_dir table_name prefix data_path : string) (batch_size : Z)
  (df : list frame_row) (config : table_config) (s : server) :
  get_parquet_path data_dir table_name = Some data_path ->
  load_parquet_data data_path = inr df ->
  lookup TABLE_CONFIGS table_name = Some config ->
  batch_size < 0 ->
  let k := (prefix ++ "_" ++ table_name)%string in
  load_table_to_milvus data_dir table_name prefix batch_size s
  = (inr 0,
     mkServer
       (remove_collection k (collections s)
        ++ [(k, (schema_of table_name config, []))])
       (calls s
        ++ opening_calls k (contains_key (collections s) k)
             (schema_of table_name config)
        ++ closing_calls k config)).
Proof.
  intros Hp Hd Hc Hb k.
  rewrite (load_table_run _ _ _ _ _ _ _ _ Hp Hd Hc). fold k.
  unfold range.
  replace (batch_size =? 0) with false by (symmetry; apply Z.eqb_neq; lia).
  replace (0 <? batch_size) with false by (symmetry; apply Z.ltb_ge; lia).
  set (rows := prepare_row_data df table_name).
  assert (E : range_down (Z.to_nat (0 - len rows)) 0 (len rows) batch_size = []).
  { replace (Z.to_nat (0 - len rows)) with 0%nat by (unfold len; lia).
    reflexivity. }
  rewrite E. reflexivity.
Qed.

(** X6. When the data directory holds neither a directory of parquet files
    nor a single parquet file for the table, a load returns 0 and sends
    nothing to the server: an existing collection keeps its rows. *)
Theorem load_table_without_data (data_dir table_name prefix : string)
  (batch_size : Z) (s : server) :
  (is_dir (joinpath data_dir table_name) = false \/
   glob_parquet (joinpath data_dir table_name) = []) ->
  path_exists (joinpath data_dir (table_name ++ ".parquet")%string) = false ->
  load_table_to_milvus data_dir table_name prefix batch_size s = (inr 0, s).
Proof.
  intros Hd Hf. unfold load_table_to_milvus, get_parquet_path.
  rewrite Hf. destruct Hd as [-> | ->]; [reflexivity|].
  destruct (is_dir _); reflexivity.
Qed.

End LoaderLoads.

Section LoaderLoadsScenario.

Import Loader LoaderFixture.

Definition trip_config : table_config :=
  match lookup TABLE_CONFIGS "trip" with
  | Some config => config
  | None => mkConfig [] "" []
  end.

(** The rows a collection holds, by collection name. *)
Definition contents (s : @server files) : list (string * list Z) :=
  map (fun c => (fst c, snd (snd c))) (collections s).

Lemma load_table_replaces_collection_witness :
  exists batches,
    batches = [[10; 20]; [30; 40]; [50]] /\
    load_table_to_milvus "data" "trip" "spatialbench" 2 used_server
    = (inr 5,
       mkServer
         [("spatialbench_trip",
           (schema_of "trip" trip_config, [10; 20; 30; 40; 50]))]
         ([has_collection "spatialbench_trip";
           drop_collection "spatialbench_trip";
           create_collection "spatialbench_trip" (schema_of "trip" trip_config)]
          ++ map (insert "spatialbench_trip") batches
          ++ [create_index "spatialbench_trip" "t_pickuploc" "RTREE";
              create_index "spatialbench_trip" "t_dropoffloc" "RTREE";
              load_collection "spatialbench_trip"])).
Proof.
  destruct (@load_table_replaces_collection files "data" "trip" "spatialbench"
              "data/trip" 2 [1; 2; 3; 4; 5] trip_config used_server)
    as (batches & C & F & E);
    [reflexivity | reflexivity | reflexivity | lia |].
  eexists. split; [reflexivity|]. reflexivity.
Defined.

Lemma load_table_zero_batch_size_witness :
  fst (load_table_to_milvus "data" "trip" "spatialbench" 0 used_server)
  = inl (ValueError "range() arg 3 must not be zero") /\
  contents
    (snd (load_table_to_milvus "data" "trip" "spatialbench" 0 used_server))
  = [("spatialbench_trip", [])].
Proof.
  rewrite (@load_table_zero_batch_size files "data" "trip" "spatialbench"
             "data/trip" [1; 2; 3; 4; 5] trip_config used_server);
    [|reflexivity..].
  split; reflexivity.
Defined.

Lemma load_table_negative_batch_size_witness :
  fst (load_table_to_milvus "data" "trip" "spatialbench" (-3) used_server)
  = inr 0 /\
  contents
    (snd (load_table_to_milvus "data" "trip" "spatialbench" (-3) used_server))
  = [("spatialbench_trip", [])].
Proof.
  rewrite (@load_table_negative_batch_size files "data" "trip" "spatialbench"
             "data/trip" (-3) [1; 2; 3; 4; 5] trip_config used_server);
    [|reflexivity || lia ..].
  split; reflexivity.
Defined.

Lemma load_table_without_data_witness :
  load_table_to_milvus "data" "building" "spatialbench" 10000 used_server
  = (inr 0, used_server).
Proof.
  apply (@load_table_without_data files); [left|]; reflexivity.
Defined.

End LoaderLoadsScenario.

(** * The loader: schemas and the command line *)

Section LoaderSchemas.

Import Loader.

Context `{Parquet}.

Definition is_geometry (f : FieldSchema) : bool :=
  DataType_eqb (dtype f) GEOMETRY.

(** Only text fields carry a length limit, and they all do. *)
Definition length_limit_ok (f : FieldSchema) : Prop :=
  match dtype f with
  | VARCHAR => exists m, max_length f = Some m /\ 0 < m
  | _ => max_length f = None
  end.

(** What the schema built for an entry of [TABLE_CONFIGS] looks like. *)
Definition schema_consistent (entry : string * table_config) : Prop :=
  exists schema,
    create_collection_schema (fst entry) = inr schema /\
    map name (fields schema) = map field_name (schema_fields (snd entry)) /\
    filter is_primary (fields schema)
    = [mkFieldSchema (primary_key (snd entry)) INT64 true None] /\
    map name (filter is_geometry (fields schema)) = geometry_cols (snd entry) /\
    Forall length_limit_ok (fields schema) /\
    enable_dynamic_field schema = true.

Lemma lookup_absent {V : Type} (d : list (string * V)) (k : string) :
  contains_key d k = false -> lookup d k = None.
Proof.
  unfold contains_key, keys.
  induction d as [|[k' v] d IH]; cbn [map existsb lookup fst]; trivial.
  intros E. apply orb_false_iff in E. destruct E as [E1 E2].
  rewrite E1. auto.
Qed.

(** X7. For each of the six configured tables, [create_collection_schema]
    builds a schema with the configured fields in order, exactly one primary
    field (the configured primary key, an INT64), a length limit on the text
    fields and on no other, and as its GEOMETRY fields exactly the columns
    on which the loader requests an R-Tree index; for any other table name
    it raises [KeyError]. *)
Theorem schemas_match_table_configs :
  Forall schema_consistent TABLE_CONFIGS /\
  keys TABLE_CONFIGS
  = ["trip"; "customer"; "driver"; "vehicle"; "building"; "zone"] /\
  forall table_name,
    contains_key TABLE_CONFIGS table_name = false ->
    create_collection_schema table_name = inl (KeyError table_name).
Proof.
  split; [|split; [reflexivity|]].
  - unfold TABLE_CONFIGS.
    repeat (apply Forall_cons;
            [eexists; split; [reflexivity|];
             repeat (split; [reflexivity|]); split; [|reflexivity];
             repeat (apply Forall_cons;
                     [first [reflexivity
                            | eexists; split; [reflexivity|reflexivity]]|]);
             apply Forall_nil|]).
    apply Forall_nil.
  - intros table_name E. unfold create_collection_schema.
    now rewrite (lookup_absent _ _ E).
Qed.

Definition unknown_table (t : string) : bool :=
  negb (contains_key TABLE_CONFIGS t).

Lemma check_tables_unknown (names : list string) (s : server) :
  existsb unknown_table names = true ->
  check_tables names s = (inl (SystemExit 1), s).
Proof.
  unfold unknown_table.
  induction names as [|t names IH]; cbn [existsb check_tables];
    [discriminate|].
  destruct (contains_key TABLE_CONFIGS t); cbn [negb orb]; auto.
Qed.

(** X8. [main] exits with status 1 before it creates the client, so
    without a single call to the server, when the data directory does not
    exist, or when it exists and one of the comma-separated, stripped names
    of an ASCII text given with [--tables] is not a configured table, even
    if the names before it are. *)
Theorem main_validates_before_connecting (a : args) (s : server) :
  path_exists (data_dir a) = false \/
  (exists text names,
     tables a = Some text /\ isascii text = true /\
     chosen_tables a = Some names /\
     existsb unknown_table names = true) ->
  main a s = (inl (SystemExit 1), s).
Proof.
  intros [E | (text & names & _ & _ & Ec & Eu)]; unfold main.
  - now rewrite E.
  - destruct (path_exists (data_dir a)); cbn [negb]; [|reflexivity].
    rewrite Ec. unfold lbind at 1. unfold lbind at 1.
    now rewrite (check_tables_unknown _ _ Eu).
Qed.

End LoaderSchemas.

Section LoaderMainScenario.

Import Loader LoaderFixture.

(** [--tables "trip, zones"]: the second name is not a table; and a trailing
    comma, as in ["trip,"], adds the empty name, which is none either. *)
Lemma main_validates_before_connecting_witness :
  chosen_tables (mkArgs "data" "http://localhost:19530" "spatialbench"
                   (Some "trip, zones") 10000)
  = Some ["trip"; "zones"] /\
  main (mkArgs "data" "http://localhost:19530" "spatialbench"
          (Some "trip, zones") 10000) used_server
  = (inl (SystemExit 1), used_server) /\
  main (mkArgs "data" "http://localhost:19530" "spatialbench"
          (Some "trip,") 10000) used_server
  = (inl (SystemExit 1), used_server) /\
  main (default_args "nowhere") used_server
  = (inl (SystemExit 1), used_server).
Proof.
  split; [reflexivity|]. split; [|split].
  - apply (@main_validates_before_connecting files). right.
    exists "trip, zones", ["trip"; "zones"]. repeat split.
  - apply (@main_validates_before_connecting files). right.
    exists "trip,", ["trip"; ""]. repeat split.
  - apply (@main_validates_before_connecting files). left. reflexivity.
Defined.

End LoaderMainScenario.

(** * The loader: when the client is closed *)

Section LoaderClose.

Import Loader.

Context `{Parquet}.

(** A computation that only adds calls to the server's log, none of them
    [close]. *)
Definition keeps_open {A : Type} (m : LIO A) : Prop :=
  forall s r s', m s = (r, s') ->
    exists added, calls s' = calls s ++ added /\ ~ In close added.

Lemma keeps_open_lret {A : Type} (a : A) : keeps_open (lret a).
Proof.
  intros s r s' [= <- <-]. exists []. rewrite app_nil_r. auto.
Qed.

Lemma keeps_open_lraise {A : Type} (e : exn) : keeps_open (@lraise _ A e).
Proof.
  intros s r s' [= <- <-]. exists []. rewrite app_nil_r. auto.
Qed.

Lemma keeps_open_lift {A : Type} (x : exn + A) : keeps_open (lift x).
Proof.
  intros s r s' [= <- <-]. exists []. rewrite app_nil_r. auto.
Qed.

Lemma keeps_open_lbind {A B : Type} (m : LIO A) (k : A -> LIO B) :
  keeps_open m -> (forall a, keeps_open (k a)) -> keeps_open (lbind m k).
Proof.
  intros Hm Hk s r s' E. unfold lbind in E.
  destruct (m s) as [[e|a] s1] eqn:E1.
  - injection E as <- <-. eauto.
  - destruct (Hm _ _ _ E1) as (d1 & C1 & N1).
    destruct (Hk a _ _ _ E) as (d2 & C2 & N2).
    exists (d1 ++ d2). rewrite C2, C1, app_assoc. split; trivial.
    intros I. apply in_app_or in I. tauto.
Qed.

Lemma keeps_open_try_pass (m : LIO unit) :
  keeps_open m -> keeps_open (try_pass m).
Proof.
  intros Hm s r s' E. unfold try_pass in E.
  destruct (m s) as [[e|u] s1] eqn:E1.
  - destruct e; injection E as <- <-; eauto.
  - injection E as <- <-; eauto.
Qed.

Ltac one_call :=
  let s := fresh "s" in let r := fresh "r" in let s' := fresh "s'" in
  let E := fresh "E" in
  intros s r s' E;
  repeat match type of E with
    | context [if ?b then _ else _] => destruct b
    end;
  injection E as <- <-; cbn [calls];
  eexists; (split; [reflexivity|]);
  intros [I|[]]; discriminate I.

Lemma keeps_open_log (c : call) : c <> close -> keeps_open (log c).
Proof.
  intros Hc s r s' [= <- <-]. cbn [calls]. eexists. split; [reflexivity|].
  intros [I|[]]. congruence.
Qed.

Lemma keeps_open_has_collection (k : string) :
  keeps_open (client_has_collection k).
Proof. unfold client_has_collection. one_call. Qed.

Lemma keeps_open_drop_collection (k : string) :
  keeps_open (client_drop_collection k).
Proof. unfold client_drop_collection. one_call. Qed.

Lemma keeps_open_create_collection (k : string) (schema : CollectionSchema) :
  keeps_open (client_create_collection k schema).
Proof. unfold client_create_collection. one_call. Qed.

Lemma keeps_open_insert (k : string) (data : list milvus_row) :
  keeps_open (client_insert k data).
Proof. unfold client_insert. one_call. Qed.

Lemma keeps_open_create_index (k f : string) :
  keeps_open (client_create_index k f).
Proof. unfold client_create_index. one_call. Qed.

Lemma keeps_open_list_collections : keeps_open client_list_collections.
Proof. unfold client_list_collections. one_call. Qed.

Lemma keeps_open_insert_batches (k : string) (rows : list milvus_row) (b : Z)
  (starts : list Z) (total : Z) :
  keeps_open (insert_batches k rows b starts total).
Proof.
  revert total. induction starts as [|i starts IH]; intros total;
    cbn [insert_batches].
  - apply keeps_open_lret.
  - apply keeps_open_lbind; [apply keeps_open_insert | auto].
Qed.

Lemma keeps_open_create_indexes (k : string) (cols : list string) :
  keeps_open (create_indexes k cols).
Proof.
  induction cols as [|c cols IH]; cbn [create_indexes].
  - apply keeps_open_lret.
  - apply keeps_open_lbind; [|auto].
    apply keeps_open_try_pass, keeps_open_create_index.
Qed.

Lemma keeps_open_load_table (data_dir table_name prefix : string)
  (batch_size : Z) :
  keeps_open (load_table_to_milvus data_dir table_name prefix batch_size).
Proof.
  unfold load_table_to_milvus.
  destruct (get_parquet_path data_dir table_name); [|apply keeps_open_lret].
  repeat first
    [ apply keeps_open_lbind; [|intros ?]
    | apply keeps_open_lift
    | apply keeps_open_lret
    | apply keeps_open_has_collection
    | apply keeps_open_create_collection
    | apply keeps_open_insert_batches
    | apply keeps_open_log; discriminate
    | match goal with
      | |- keeps_open (if ?b then _ else _) =>
          destruct b; [apply keeps_open_drop_collection | apply keeps_open_lret]
      | |- keeps_open (match ?o with Some _ => _ | None => _ end) =>
          destruct o; [apply keeps_open_create_indexes | apply keeps_open_lraise]
      end ].
Qed.

Lemma keeps_open_load_tables (a : args) (names : list string) (total : Z) :
  keeps_open (load_tables a names total).
Proof.
  revert total. induction names as [|t names IH]; intros total;
    cbn [load_tables].
  - apply keeps_open_lret.
  - apply keeps_open_lbind; [apply keeps_open_load_table | auto].
Qed.

Lemma keeps_open_report (prefix : string) (names : list string) :
  keeps_open (report_collections prefix names).
Proof.
  induction names as [|c names IH]; cbn [report_collections].
  - apply keeps_open_lret.
  - apply keeps_open_lbind; [|auto].
    destruct (String.prefix prefix c);
      [apply keeps_open_log; discriminate | apply keeps_open_lret].
Qed.

Lemma check_tables_run (names : list string) (s : server) :
  check_tables names s = (inl (SystemExit 1), s) \/
  check_tables names s = (inr tt, s).
Proof.
  induction names as [|t names IH]; cbn [check_tables]; [now right|].
  destruct (contains_key TABLE_CONFIGS t); [exact IH | now left].
Qed.

(** What [main] adds to the log when it ends in [r]. *)
Definition main_calls (a : args) (r : exn + unit) (added : list call) : Prop :=
  match r with
  | inr _ =>
      exists between,
        added = MilvusClient (uri a) :: between ++ [close] /\
        ~ In close between
  | inl _ => ~ In close added
  end.

(** X9. [main] closes the client exactly when it returns: then the calls it
    made start with the creation of the client and end with the one
    [close]. When it ends in an exception (an exit during validation, or an
    error raised while a table is loaded, such as the [ValueError] of a zero
    batch size) no [close] is ever sent: there is no [finally]. *)
Theorem main_closes_only_on_return (a : args) (s : server) :
  exists added,
    calls (snd (main a s)) = calls s ++ added /\
    main_calls a (fst (main a s)) added.
Proof.
  destruct (main a s) as [r s'] eqn:E. cbn [fst snd].
  assert (Quiet : forall e : exn, exists added : list call,
            calls s = calls s ++ added /\ main_calls a (inl e) added).
  { intros e. exists []. rewrite app_nil_r. cbn. auto. }
  unfold main in E. destruct (path_exists (data_dir a)); cbn [negb] in E;
    [|injection E as <- <-; apply Quiet].
  assert (R : forall names,
            lbind (log (MilvusClient (uri a))) (fun _ =>
            lbind (load_tables a names 0) (fun _ =>
            lbind client_list_collections (fun collections =>
            lbind (report_collections (prefix a) collections) (fun _ =>
            log close)))) s = (r, s') ->
            exists added,
              calls s' = calls s ++ added /\ main_calls a r added).
  { clear E. intros names E. unfold lbind at 1, log at 1 in E.
    set (s1 := mkServer (collections s) (calls s ++ [MilvusClient (uri a)]))
      in E.
    unfold lbind at 1 in E.
    destruct (load_tables a names 0 s1) as [[e|total] s2] eqn:E2;
      destruct (keeps_open_load_tables _ _ _ _ _ _ E2) as (d2 & C2 & N2).
    { injection E as <- <-. exists (MilvusClient (uri a) :: d2).
      rewrite C2. unfold s1. cbn [calls]. rewrite <- app_assoc.
      split; trivial.
      cbn. intros [I|I]; [discriminate | tauto]. }
    unfold lbind at 1 in E.
    destruct (client_list_collections s2) as [[e|cols] s3] eqn:E3;
      destruct (keeps_open_list_collections _ _ _ E3) as (d3 & C3 & N3).
    { injection E as <- <-. exists (MilvusClient (uri a) :: d2 ++ d3).
      rewrite C3, C2. unfold s1. cbn [calls]. rewrite <- !app_assoc.
      split; trivial.
      cbn. intros [I|I]; [discriminate|]. apply in_app_or in I. tauto. }
    unfold lbind in E.
    destruct (report_collections (prefix a) cols s3) as [[e|u] s4] eqn:E4;
      destruct (keeps_open_report _ _ _ _ _ E4) as (d4 & C4 & N4).
    { injection E as <- <-.
      exists (MilvusClient (uri a) :: d2 ++ d3 ++ d4).
      rewrite C4, C3, C2. unfold s1. cbn [calls]. rewrite <- !app_assoc.
      split; trivial.
      cbn. intros [I|I]; [discriminate|].
      apply in_app_or in I. destruct I as [I|I]; [tauto|].
      apply in_app_or in I. tauto. }
    unfold log in E. injection E as <- <-.
    exists (MilvusClient (uri a) :: (d2 ++ d3 ++ d4) ++ [close]).
    cbn [calls]. rewrite C4, C3, C2. unfold s1.
    cbn [calls]. rewrite <- !app_assoc. split; trivial.
    cbn. exists (d2 ++ d3 ++ d4). rewrite <- !app_assoc. split; trivial.
    intros I. apply in_app_or in I. destruct I as [I|I]; [tauto|].
    apply in_app_or in I. tauto. }
  destruct (chosen_tables a) as [names|].
  - unfold lbind at 1 in E. unfold lbind at 1 in E.
    destruct (check_tables_run names s) as [C|C]; rewrite C in E.
    + injection E as <- <-. apply Quiet.
    + unfold lret in E. apply (R names E).
  - unfold lbind at 1, lret at 1 in E. apply (R _ E).
Qed.

End LoaderClose.

(** * What the queries ask of the collections the loader made *)

(** The field names the loader gives the collection of a table. *)
Definition loader_fields (table : string) : list string :=
  match Loader.lookup Loader.TABLE_CONFIGS table with
  | Some config => map Loader.field_name (Loader.schema_fields config)
  | None => []
  end.

Definition fields_known (table : string) (output_fields : list string) : bool :=
  forallb (fun f => existsb (String.eqb f) (loader_fields table)) output_fields.

Section FetchPlan.

Context `{Shapely} `{Calendar} `{Environ} `{Milvus}.

(** A fetch reads a collection the loader writes under the same prefix
    convention, asks only for fields of its schema, and sets a positive
    limit. *)
Definition fetch_known (e : event) : Prop :=
  match e with
  | Query collection_name _ output_fields limit =>
      exists table,
        collection_name
        = (environ_get_default "MILVUS_PREFIX" Loader.DEFAULT_PREFIX
           ++ "_" ++ table)%string /\
        In table ["trip"; "zone"; "building"] /\
        fields_known table output_fields = true /\
        0 < limit
  | _ => True
  end.

Ltac fetch_plan :=
  run_query;
  repeat match goal with
    | |- context [match ?l with [] => _ | _ :: _ => _ end] =>
        destruct l; cbn [fst snd app]
    | |- context [if ?b then _ else _] => destruct b; cbn [fst snd app]
    end;
  (cbn [filter is_query];
   repeat (apply Forall_cons;
           [eexists; split; [reflexivity|];
            split; [cbn; tauto|]; split; reflexivity|]);
   apply Forall_nil).

(** X10. Every fetch of every supported query goes to the collection
    [<prefix>_trip], [<prefix>_zone] or [<prefix>_building], named as the
    loader names it and with the same default prefix, requests only fields
    that the loader's schema of that table defines, and carries a positive
    row limit. *)
Theorem queries_fetch_loaded_fields :
  Forall fetch_known (fetches q1) /\
  Forall fetch_known (fetches q2) /\
  Forall fetch_known (fetches q3) /\
  Forall fetch_known (fetches q4) /\
  Forall fetch_known (fetches q6) /\
  Forall fetch_known (fetches q8) /\
  Forall fetch_known (fetches q9) /\
  Forall fetch_known (fetches q10) /\
  Forall fetch_known (fetches q11).
Proof.
  repeat match goal with |- _ /\ _ => split end.
  - unfold q1. fetch_plan.
  - unfold q2. fetch_plan.
  - unfold q3. fetch_plan.
  - unfold q4. fetch_plan.
  - unfold q6. fetch_plan.
  - unfold q8. fetch_plan.
  - unfold q9. fetch_plan.
  - unfold q10. fetch_plan.
  - unfold q11. fetch_plan.
Qed.

Definition trip_collection : string := _collection_name the_runner "trip".
Definition zone_collection : string := _collection_name the_runner "zone".
Definition building_collection : string :=
  _collection_name the_runner "building".

Ltac only_fetch E :=
  revert E; run_query; intros E; rewrite E; reflexivity.

(** X11. A query that joins two collections returns as soon as the first
    one comes back empty and never asks for the second: Q4 without trips
    does not fetch the zones; Q6, Q10 and Q11 without zones and Q8 without
    buildings do not fetch the trips. *)
Theorem empty_first_fetch_skips_second :
  (fetch_trips "" 10000000 = [] ->
   fetches q4
   = [Query trip_collection "" ["t_tripkey"; "t_pickuploc"; "t_tip"]
        10000000]) /\
  (fetch_zones q6_filter 100000 = [] ->
   fetches q6
   = [Query zone_collection q6_filter ["z_zonekey"; "z_name"; "z_boundary"]
        100000]) /\
  (fetch_buildings "" 1000000 = [] ->
   fetches q8
   = [Query building_collection ""
        ["b_buildingkey"; "b_name"; "b_boundary"] 1000000]) /\
  (fetch_zones "" 1000000 = [] ->
   fetches q10
   = [Query zone_collection "" ["z_zonekey"; "z_name"; "z_boundary"]
        1000000]) /\
  (fetch_zones "" 1000000 = [] ->
   fetches q11
   = [Query zone_collection "" ["z_zonekey"; "z_boundary"] 1000000]).
Proof.
  unfold trip_collection, zone_collection, building_collection.
  repeat match goal with |- _ /\ _ => split end; intros E.
  - unfold q4. only_fetch E.
  - unfold q6. run_query. cbv zeta.
    match goal with
    | |- context [query_zone ?a ?b ?c] =>
        replace (query_zone a b c) with (@nil Zone) by (symmetry; exact E)
    end.
    reflexivity.
  - unfold q8. only_fetch E.
  - unfold q10. only_fetch E.
  - unfold q11. only_fetch E.
Qed.

End FetchPlan.

(** * The rows of the zone and building joins *)

Section JoinRows.

Context `{Shapely} `{Calendar} `{Environ} `{Milvus}.

(** The row Q6 reports for a zone. *)
Definition q6_row_of (trip_df : list Trip) (zone : Zone) (r : R6.row) : Prop :=
  let matching := matching_trips trip_df zone in
  R6.z_zonekey r = z_zonekey zone /\
  R6.z_name r = z_name zone /\
  R6.total_pickups r = len matching /\
  0 < R6.total_pickups r /\
  R6.avg_distance r = mean (map t_totalamount matching) /\
  R6.avg_duration r = nanmean (map duration_seconds matching).

Lemma q6_join_row (trip_df : list Trip) (zone_df : list Zone) (r : R6.row) :
  In r (q6_join trip_df zone_df) ->
  exists zone, In zone zone_df /\ q6_row_of trip_df zone r.
Proof.
  unfold q6_join. intros Hr. apply in_flat_map in Hr.
  destruct Hr as (zone & Hz & Hr). exists zone. split; trivial.
  destruct (0 <? len (matching_trips trip_df zone)) eqn:E; [|destruct Hr].
  destruct Hr as [<-|[]]. apply Z.ltb_lt in E.
  unfold q6_row_of. cbn. repeat split; trivial.
Qed.

(** X12. Every row of Q6 belongs to a fetched zone with at least one trip
    picked up inside it and carries that zone's key and name and the number
    of those trips; [avg_duration] is the mean of the durations of those of
    them whose pickup and dropoff times are both present, and missing when
    there is none; the column named [avg_distance] is the mean of their
    [t_totalamount], the fetched [t_distance] being left unused. *)
Theorem q6_rows_average_total_amount :
  exists df, result q6 = Return df /\
    Forall (fun r => exists zone,
              In zone (fetch_zones q6_filter 100000) /\
              q6_row_of (fetch_trips "" 10000000) zone r) (data df).
Proof.
  eexists. split; [apply q6_run|]. cbn [data].
  eapply Permutation_Forall; [apply Permutation_sym, sort_values_perm|].
  apply Forall_forall. intros r. apply q6_join_row.
Qed.

Lemma len_filter_le {A : Type} (f : A -> bool) (l : list A) :
  0 <= len (filter f l) <= len l.
Proof.
  unfold len. pose proof (filter_length_le f l). lia.
Qed.

Lemma q4_top_trips_length (trip_df : list Trip) :
  len (q4_top_trips trip_df) = Z.min 1000 (len trip_df).
Proof.
  unfold q4_top_trips, len. rewrite length_firstn, sort_values_length. lia.
Qed.

(** The row Q4 reports for a zone. *)
Definition q4_row_of (top_trips : list Trip) (zone : Zone) (r : R4.row) : Prop :=
  R4.z_zonekey r = z_zonekey zone /\
  R4.z_name r = z_name zone /\
  R4.trip_count r = q4_count top_trips zone.

Lemma q4_join_row (top_trips : list Trip) (zone_df : list Zone) (r : R4.row) :
  In r (q4_join top_trips zone_df) ->
  exists zone, In zone zone_df /\ q4_row_of top_trips zone r /\
               0 < R4.trip_count r <= len top_trips.
Proof.
  unfold q4_join. intros Hr. apply in_flat_map in Hr.
  destruct Hr as (zone & Hz & Hr). exists zone. split; trivial.
  destruct (0 <? q4_count top_trips zone) eqn:E; [|destruct Hr].
  destruct Hr as [<-|[]]. apply Z.ltb_lt in E.
  split; [now repeat split|]. cbn [R4.trip_count]. split; trivial.
  unfold q4_count.
  pose proof (len_filter_le (fun pt => contains (zone_geom zone) pt)
                (map pickup_geom top_trips)) as L.
  unfold len in *. rewrite length_map in L. lia.
Qed.

(** X13. Q4 counts pickups among at most 1000 trips: every row belongs to a
    fetched zone, with its key and name, and its [trip_count] is the number
    of top trips picked up inside that zone, at least 1 and at most the
    smaller of 1000 and the number of fetched trips. *)
Theorem q4_counts_within_top_trips :
  exists df, result q4 = Return df /\
    Forall (fun r => exists zone,
              In zone (fetch_zones "" 100000) /\
              q4_row_of (q4_top_trips (fetch_trips "" 10000000)) zone r /\
              0 < R4.trip_count r
                <= Z.min 1000 (len (fetch_trips "" 10000000))) (data df).
Proof.
  eexists. split; [apply q4_run|]. cbn [data].
  eapply Permutation_Forall; [apply Permutation_sym, sort_values_perm|].
  apply Forall_forall. intros r Hr.
  destruct (q4_join_row _ _ _ Hr) as (zone & Hz & Hrow & Hc).
  exists zone. rewrite q4_top_trips_length in Hc. auto.
Qed.

(** The pickups within the threshold of a building. *)
Definition nearby_pickups (trip_df : list Trip) (building : Building)
  : list geom :=
  filter (fun pt => Qle_bool (distance pt (boundary_geom building))
                      (45 # 10000))
    (map pickup_geom trip_df).

Definition q8_row_of (trip_df : list Trip) (building : Building) (r : R8.row)
  : Prop :=
  R8.b_buildingkey r = b_buildingkey building /\
  R8.b_name r = b_name building /\
  R8.nearby_pickup_count r = len (nearby_pickups trip_df building) /\
  0 < R8.nearby_pickup_count r <= len trip_df.

Lemma q8_join_row (trip_df : list Trip) (building_df : list Building)
  (r : R8.row) :
  In r (q8_join trip_df building_df) ->
  exists building, In building building_df /\ q8_row_of trip_df building r.
Proof.
  unfold q8_join. intros Hr. apply in_flat_map in Hr.
  destruct Hr as (b & Hb & Hr). exists b. split; trivial.
  fold q8_threshold in Hr. unfold q8_threshold in Hr.
  fold (nearby_pickups trip_df b) in Hr.
  destruct (0 <? len (nearby_pickups trip_df b)) eqn:E; [|destruct Hr].
  destruct Hr as [<-|[]]. apply Z.ltb_lt in E.
  unfold q8_row_of. cbn. repeat split; trivial.
  unfold nearby_pickups.
  match goal with
  | |- len (filter ?f ?l) <= _ => pose proof (len_filter_le f l) as L
  end.
  unfold len in *. rewrite length_map in L. lia.
Qed.

(** X14. Every row of Q8 belongs to a fetched building, with its key and
    name, and counts the fetched trips whose pickup lies at a distance of at
    most 0.0045 from the building's boundary geometry, the bound included;
    the count is at least 1, so that buildings without such a pickup have no
    row, and at most the number of fetched trips. *)
Theorem q8_counts_pickups_within_threshold :
  exists df, result q8 = Return df /\
    Forall (fun r => exists building,
              In building (fetch_buildings "" 1000000) /\
              q8_row_of (fetch_trips "" 10000000) building r) (data df).
Proof.
  eexists. split; [apply q8_run|]. cbn [data].
  eapply Permutation_Forall; [apply Permutation_sym, sort_values_perm|].
  apply Forall_forall. intros r. apply q8_join_row.
Qed.

End JoinRows.

(** * Q11: which trips cross zones *)

Section CrossZone.

Context `{Shapely} `{Calendar} `{Environ} `{Milvus}.

(** The trip starts and ends at the same stored location. *)
Definition round_trip (t : Trip) : bool :=
  (t_pickuploc t =? t_dropoffloc t)%string.

(** The trip starts in a zone and ends in a zone with another key. *)
Definition crosses (zones : list Zone) (t : Trip) : bool :=
  q11_mask zones false t.

Lemma ne_same (as_float : bool) (z : option Z) :
  notna z && notna z && ne as_float z z = false.
Proof.
  destruct z as [k|]; cbn; trivial. destruct as_float;
    now rewrite Z.eqb_refl.
Qed.

Lemma q11_mask_round_trip (zones : list Zone) (as_float : bool) (t : Trip) :
  q11_mask zones as_float t = true -> round_trip t = false.
Proof.
  unfold round_trip, q11_mask, pickup_geom, dropoff_geom. intros M.
  apply not_true_iff_false. intros E. apply String.eqb_eq in E.
  rewrite E, ne_same in M. discriminate.
Qed.

Lemma q11_mask_crosses (zones : list Zone) (as_float : bool) (t : Trip) :
  q11_mask zones as_float t = true -> crosses zones t = true.
Proof.
  unfold crosses, q11_mask.
  destruct (find_zone zones (pickup_geom t)) as [x|]; cbn; trivial.
  destruct (find_zone zones (dropoff_geom t)) as [y|]; cbn; trivial.
  destruct as_float; trivial.
  destruct (x =? y) eqn:E; trivial.
  apply Z.eqb_eq in E. subst. now rewrite Z.eqb_refl.
Qed.

Lemma find_zone_key (zones : list Zone) (point : geom) (key : Z) :
  find_zone zones point = Some key ->
  exists zone, In zone zones /\ z_zonekey zone = key.
Proof.
  induction zones as [|z zones IH]; cbn [find_zone]; [discriminate|].
  destruct (contains _ _).
  - intros [= <-]. exists z. split; [now left | reflexivity].
  - intros E. destruct (IH E) as (zone & Hz & Hk).
    exists zone. split; [now right | exact Hk].
Qed.

Lemma find_zone_one_key (zones : list Zone) (key : Z) (point : geom) :
  Forall (fun z => z_zonekey z = key) zones ->
  find_zone zones point = None \/ find_zone zones point = Some key.
Proof.
  induction 1 as [|z zones Hz _ IH]; cbn [find_zone]; [now left|].
  destruct (contains _ _); [right; now rewrite Hz | exact IH].
Qed.

Lemma q11_mask_one_key (zones : list Zone) (key : Z) (as_float : bool)
  (t : Trip) :
  Forall (fun z => z_zonekey z = key) zones ->
  q11_mask zones as_float t = false.
Proof.
  intros F. unfold q11_mask.
  destruct (find_zone_one_key zones key (pickup_geom t) F) as [-> | ->];
    destruct (find_zone_one_key zones key (dropoff_geom t) F) as [-> | ->];
    cbn; trivial.
  destruct as_float; now rewrite Z.eqb_refl.
Qed.

(** Keys that a double holds exactly. *)
Definition exact_key (zone : Zone) : Prop := Z.abs (z_zonekey zone) < 2 ^ 53.

Lemma float64_of_exact (z : Z) : Z.abs z < 2 ^ 53 -> float64_of_int z = z.
Proof.
  intros L. unfold float64_of_int. cbv zeta.
  now replace (Z.abs z <? 2 ^ 53) with true by (symmetry; now apply Z.ltb_lt).
Qed.

Lemma q11_mask_exact_keys (zones : list Zone) (as_float : bool) (t : Trip) :
  Forall exact_key zones ->
  q11_mask zones as_float t = crosses zones t.
Proof.
  intros F. unfold crosses, q11_mask. rewrite Forall_forall in F.
  destruct (find_zone zones (pickup_geom t)) as [x|] eqn:Ex; cbn; trivial.
  destruct (find_zone zones (dropoff_geom t)) as [y|] eqn:Ey; cbn; trivial.
  destruct as_float; trivial.
  destruct (find_zone_key _ _ _ Ex) as (zx & Hzx & <-).
  destruct (find_zone_key _ _ _ Ey) as (zy & Hzy & <-).
  now rewrite !float64_of_exact by (apply F; assumption).
Qed.

Lemma filter_none {A : Type} (f : A -> bool) (l : list A) :
  Forall (fun a => f a = false) l -> filter f l = [].
Proof.
  induction 1 as [|a l Ha _ IH]; cbn [filter]; trivial. now rewrite Ha.
Qed.

Lemma len_filter_sub {A : Type} (f g : A -> bool) (l : list A) :
  (forall a, f a = true -> g a = true) ->
  len (filter f l) <= len (filter g l).
Proof.
  intros Hfg. unfold len.
  induction l as [|a l IH]; cbn [filter]; [lia|].
  destruct (f a) eqn:E.
  - rewrite (Hfg a E). cbn [List.length]. lia.
  - destruct (g a); cbn [List.length]; lia.
Qed.

(** X15. The cross-zone count of Q11 is at least 0 and at most the number
    of fetched trips that start in a zone and end in a zone with another
    key, which leaves out every trip whose pickup and dropoff locations are
    stored as the same text; it is that number when every zone key is below
    2^53 in size, so that a double holds it exactly; and it is 0 whenever
    all fetched zones share one key, in particular when a single zone is
    fetched. *)
Theorem q11_counts_only_changes_of_zone :
  exists n,
    result q11 = Return (mkDataFrame ["cross_zone_trip_count"] [R11.mk n]) /\
    0 <= n <= len (filter (crosses (fetch_zones "" 1000000))
                     (fetch_trips "" 10000000)) /\
    len (filter (crosses (fetch_zones "" 1000000)) (fetch_trips "" 10000000))
    <= len (filter (fun t => negb (round_trip t)) (fetch_trips "" 10000000)) /\
    (Forall exact_key (fetch_zones "" 1000000) ->
     n = len (filter (crosses (fetch_zones "" 1000000))
                (fetch_trips "" 10000000))) /\
    (forall key,
       Forall (fun z => z_zonekey z = key) (fetch_zones "" 1000000) ->
       n = 0).
Proof.
  eexists. split; [apply q11_run|].
  set (zones := fetch_zones "" 1000000).
  set (trips := fetch_trips "" 10000000).
  unfold q11_count. cbv zeta.
  set (as_float := has_missing _ || has_missing _).
  split; [split|split; [|split]].
  - apply len_filter_le.
  - apply len_filter_sub. intros t. apply q11_mask_crosses.
  - apply len_filter_sub. intros t M.
    unfold crosses in M. now rewrite (q11_mask_round_trip _ _ _ M).
  - intros F. f_equal. apply filter_ext. intros t.
    now apply q11_mask_exact_keys.
  - intros key F. rewrite filter_none; [reflexivity|].
    apply Forall_forall. intros t _. now apply (q11_mask_one_key _ key).
Qed.

End CrossZone.

(** * Q9: the range of the IoU *)

Section IouRange.

Context `{Shapely} `{Calendar} `{Environ} `{Milvus}.

Lemma q9_iou_range (overlap a1 a2 : Q) :
  (0 <= overlap)%Q -> (overlap <= a1)%Q -> (overlap <= a2)%Q ->
  (0 <= q9_iou overlap (a1 + a2 - overlap) <= 1)%Q.
Proof.
  intros Hpos Hle1 Hle2. unfold q9_iou.
  destruct (Qgtb (a1 + a2 - overlap) 0) eqn:E.
  - apply Qgtb_true in E. split.
    + apply Qle_shift_div_l; trivial. now rewrite Qmult_0_l.
    + apply Qle_shift_div_r; trivial. rewrite Qmult_1_l.
      apply Qle_minus_iff.
      setoid_replace (a1 + a2 - overlap + - overlap)%Q
        with ((a1 + - overlap) + (a2 + - overlap))%Q by ring.
      apply (Qle_trans _ (0 + 0)); [compute; discriminate|].
      apply Qplus_le_compat; now apply -> Qle_minus_iff.
  - destruct (Qgtb overlap 0); split; discriminate.
Qed.

(** In a row the overlap is a part of both areas. *)
Definition overlap_within_areas (r : R9.row) : Prop :=
  (0 <= R9.overlap_area r)%Q /\
  (R9.overlap_area r <= R9.area1 r)%Q /\
  (R9.overlap_area r <= R9.area2 r)%Q.

Definition iou_in_range (r : R9.row) : Prop :=
  overlap_within_areas r -> (0 <= R9.iou r <= 1)%Q.

Lemma q9_pair_iou_range (b1 b2 : Building) :
  Forall iou_in_range (q9_pair b1 b2).
Proof.
  unfold q9_pair. destruct (intersects _ _); constructor; [|constructor].
  intros (Hpos & Hle1 & Hle2). cbn in *. now apply q9_iou_range.
Qed.

Lemma q9_pairs_iou_range (buildings : list Building) :
  Forall iou_in_range (q9_pairs buildings).
Proof.
  induction buildings as [|b1 rest IH]; simpl; [constructor|].
  apply Forall_app; split; trivial.
  apply Forall_flat_map, Forall_forall. intros b2 _.
  apply q9_pair_iou_range.
Qed.

(** X16. In every row of Q9 whose overlap area is non-negative and at most
    each of the two areas, as it is for the areas of true shapes, the IoU
    lies between 0 and 1, the division by a zero union included. *)
Theorem q9_iou_between_zero_and_one :
  exists df, result q9 = Return df /\ Forall iou_in_range (data df).
Proof.
  eexists. split; [apply q9_run|]. cbn [data].
  eapply Permutation_Forall; [apply Permutation_sym, sort_values_perm|].
  apply q9_pairs_iou_range.
Qed.

End IouRange.

(** * Q3: the monthly groups *)

Definition Zsum (l : list Z) : Z := fold_right Z.add 0 l.

Section SortedInput.

Context {R : Type}.

(** Sorting rows that are already in order changes nothing. *)
Lemma sort_values_sorted_input (ks : list (sortkey R)) (l : list R) :
  StronglySorted (row_le ks) l -> sort_values ks l = l.
Proof.
  induction 1 as [|x l S IH F]; cbn [sort_values fold_right]; trivial.
  fold (sort_values ks l). rewrite IH.
  destruct l as [|y l]; cbn [insert_row]; trivial.
  inversion F as [|? ? Hxy _]; subst. unfold row_le in Hxy.
  destruct (rows_compare ks x y); congruence.
Qed.

End SortedInput.

Section MonthlyGroups.

Context `{Shapely} `{Calendar} `{Environ} `{Milvus}.

Lemma insert_key_in (k x : Z) (ks : list Z) :
  In x (insert_key k ks) <-> x = k \/ In x ks.
Proof.
  induction ks as [|k' ks IH]; cbn [insert_key In]; [intuition|].
  destruct (k <? k') eqn:E1; cbn [In]; [intuition|].
  destruct (k =? k') eqn:E2; cbn [In].
  - apply Z.eqb_eq in E2. subst. intuition.
  - rewrite IH. intuition.
Qed.

Lemma insert_key_sorted (k : Z) (ks : list Z) :
  StronglySorted Z.lt ks -> StronglySorted Z.lt (insert_key k ks).
Proof.
  induction 1 as [|k' ks S IH F]; cbn [insert_key].
  - repeat constructor.
  - destruct (k <? k') eqn:E1.
    + apply Z.ltb_lt in E1. constructor; [now constructor|].
      constructor; trivial.
      eapply Forall_impl; [|exact F]. cbn. intros; lia.
    + destruct (k =? k') eqn:E2; [now constructor|].
      apply Z.ltb_ge in E1. apply Z.eqb_neq in E2.
      constructor; trivial.
      apply Forall_forall. intros x Hx. apply insert_key_in in Hx.
      rewrite Forall_forall in F. destruct Hx as [->|Hx]; [lia | auto].
Qed.

Lemma group_keys_sorted (ks : list Z) : StronglySorted Z.lt (group_keys ks).
Proof.
  induction ks as [|k ks IH]; cbn; [constructor|].
  now apply insert_key_sorted.
Qed.

Lemma group_keys_in (x : Z) (ks : list Z) : In x (group_keys ks) <-> In x ks.
Proof.
  induction ks as [|k ks IH]; cbn [group_keys fold_right In]; [tauto|].
  fold (group_keys ks). rewrite insert_key_in, IH. intuition.
Qed.

Lemma sorted_keys_nodup (ks : list Z) : StronglySorted Z.lt ks -> NoDup ks.
Proof.
  induction 1 as [|k ks S IH F]; constructor; trivial.
  intros I. rewrite Forall_forall in F. specialize (F _ I). lia.
Qed.

Lemma present_keys_in (x : Z) (ks : list (option Z)) :
  In x (present_keys ks) <-> In (Some x) ks.
Proof.
  unfold present_keys. rewrite in_flat_map. split.
  - intros (k & Hk & Hx). destruct k as [z|]; [|destruct Hx].
    destruct Hx as [<-|[]]. exact Hk.
  - intros Hx. exists (Some x). split; [exact Hx | now left].
Qed.

Lemma has_key_spec {A : Type} (key : A -> option Z) (k : Z) (r : A) :
  has_key key k r = true <-> key r = Some k.
Proof.
  unfold has_key. destruct (key r) as [k'|]; [|split; discriminate].
  rewrite Z.eqb_eq. split; congruence.
Qed.

(** The rows of the groups of the keys [ks] add up to the rows whose key is
    among [ks]. *)
Lemma group_sizes {A : Type} (key : A -> option Z) (rows : list A)
  (ks : list Z) :
  NoDup ks ->
  Zsum (map (fun k => len (filter (has_key key k) rows)) ks)
  = len (filter (fun r => existsb (fun k => has_key key k r) ks) rows).
Proof.
  induction 1 as [|k ks Nk N IH]; cbn [map Zsum fold_right existsb].
  - unfold len. induction rows; cbn; trivial.
  - fold (Zsum (map (fun k => len (filter (has_key key k) rows)) ks)).
    rewrite IH. clear IH. unfold len.
    induction rows as [|r rows IHr]; cbn [filter]; trivial.
    destruct (has_key key k r) eqn:E.
    + apply has_key_spec in E.
      replace (existsb (fun k => has_key key k r) ks) with false.
      * cbn [orb List.length]. lia.
      * symmetry. apply not_true_iff_false. intros X.
        apply existsb_exists in X. destruct X as (x & Hx & Ex).
        apply has_key_spec in Ex. congruence.
    + cbn [orb].
      destruct (existsb (fun k => has_key key k r) ks); cbn [List.length]; lia.
Qed.

(** The groups hold the rows that have a key, each once. *)
Lemma groupby_sizes {A : Type} (key : A -> option Z) (rows : list A) :
  Zsum (map (fun g => len (snd g)) (groupby key rows))
  = len (filter (fun r => notna (key r)) rows).
Proof.
  unfold groupby. rewrite map_map. cbn [snd].
  rewrite group_sizes by apply sorted_keys_nodup, group_keys_sorted.
  f_equal. apply filter_ext_in. intros r Hr.
  destruct (key r) as [k|] eqn:E; cbn [notna].
  - apply existsb_exists. exists k. split; [|now apply has_key_spec].
    apply group_keys_in, present_keys_in. rewrite <- E. now apply in_map.
  - apply not_true_iff_false. intros X. apply existsb_exists in X.
    destruct X as (k & _ & Hk). apply has_key_spec in Hk. congruence.
Qed.

Lemma q3_agg_month (g : Z * list Trip) : R3.pickup_month (q3_agg g) = fst g.
Proof. now destruct g. Qed.

Lemma q3_agg_total (g : Z * list Trip) : R3.total_trips (q3_agg g) = len (snd g).
Proof. now destruct g. Qed.

Definition earlier_month (a b : R3.row) : Prop :=
  R3.pickup_month a < R3.pickup_month b.

Lemma q3_rows_by_month (trips : list Trip) :
  StronglySorted earlier_month (map q3_agg (groupby q3_month trips)).
Proof.
  unfold groupby. rewrite map_map.
  pose proof (group_keys_sorted (present_keys (map q3_month trips))) as S.
  induction S as [|k ks S IH F]; cbn [map]; constructor; trivial.
  apply Forall_forall. intros r Hr. apply in_map_iff in Hr.
  destruct Hr as (k' & <- & Hk). rewrite Forall_forall in F.
  unfold earlier_month. cbn. auto.
Qed.

Lemma earlier_month_le (a b : R3.row) :
  earlier_month a b -> row_le R3.order a b.
Proof.
  unfold earlier_month, row_le, R3.order. cbn [rows_compare column ascending].
  rewrite key_compare_int. intros L. apply Z.compare_lt_iff in L.
  now rewrite L.
Qed.

Lemma q3_sort_keeps_groups (trips : list Trip) :
  sort_values R3.order (map q3_agg (groupby q3_month trips))
  = map q3_agg (groupby q3_month trips).
Proof.
  apply sort_values_sorted_input.
  pose proof (q3_rows_by_month trips) as S.
  induction S as [|r l S IH F]; constructor; trivial.
  eapply Forall_impl; [|exact F]. intros b. apply earlier_month_le.
Qed.

(** The row of Q3 for the month [m]. *)
Definition q3_row_of (trips : list Trip) (m : Z) : R3.row :=
  q3_agg (m, filter (has_key q3_month m) trips).

(** X17. Q3 returns one row per calendar month in which a fetched trip with
    a pickup time was picked up, the months strictly ascending, so none
    twice; a fetched trip whose pickup time is missing belongs to no row.
    Every row is the row of the month of some fetched trip and counts at
    least one trip, every fetched trip with a pickup time falls in the
    month of some row, and the [total_trips] of all rows add up to the
    number of fetched trips that have a pickup time. *)
Theorem q3_months_partition_trips :
  exists df, result q3 = Return df /\
    StronglySorted earlier_month (data df) /\
    Forall (fun r => 0 < R3.total_trips r) (data df) /\
    (forall r, In r (data df) ->
       exists t, In t (fetch_trips q3_filter 10000000) /\
         q3_month t = Some (R3.pickup_month r)) /\
    (forall t m, In t (fetch_trips q3_filter 10000000) ->
       q3_month t = Some m ->
       exists r, In r (data df) /\ R3.pickup_month r = m /\
         R3.total_trips r
         = len (filter (has_key q3_month m)
                  (fetch_trips q3_filter 10000000))) /\
    Zsum (map R3.total_trips (data df))
    = len (filter (fun t => notna (q3_month t))
             (fetch_trips q3_filter 10000000)).
Proof.
  eexists. split; [apply q3_run|]. cbn [data].
  rewrite q3_sort_keeps_groups.
  set (trips := fetch_trips q3_filter 10000000).
  assert (G : forall r, In r (map q3_agg (groupby q3_month trips)) ->
            exists t, In t trips /\ q3_month t = Some (R3.pickup_month r) /\
              In t (filter (has_key q3_month (R3.pickup_month r)) trips) /\
              R3.total_trips r
              = len (filter (has_key q3_month (R3.pickup_month r)) trips)).
  { intros r Hr. apply in_map_iff in Hr. destruct Hr as (g & <- & Hg).
    unfold groupby in Hg. apply in_map_iff in Hg.
    destruct Hg as (k & <- & Hk). cbn [q3_agg R3.pickup_month R3.total_trips].
    apply group_keys_in, present_keys_in, in_map_iff in Hk.
    destruct Hk as (t & Et & Ht). exists t.
    split; [exact Ht|]. split; [exact Et|]. split; [|reflexivity].
    apply filter_In. split; [exact Ht | now apply has_key_spec]. }
  split; [apply q3_rows_by_month|]. split; [|split; [|split]].
  - apply Forall_forall. intros r Hr.
    destruct (G r Hr) as (t & _ & _ & I & ->).
    unfold len. destruct (filter _ trips); [destruct I | cbn; lia].
  - intros r Hr. destruct (G r Hr) as (t & Ht & Et & _).
    exists t. now split.
  - intros t m Ht Et. exists (q3_row_of trips m).
    split; [|split; reflexivity].
    unfold q3_row_of. apply in_map. unfold groupby.
    apply (in_map (fun k => (k, filter (has_key q3_month k) trips))).
    apply group_keys_in, present_keys_in. rewrite <- Et. now apply in_map.
  - rewrite map_map.
    rewrite (map_ext _ (fun g => len (snd g)) q3_agg_total).
    apply groupby_sizes.
Qed.

End MonthlyGroups.

(** * The loader: which collections a run can change *)

Section LoaderIsolation.

Import Loader.

Context `{Parquet}.

Implicit Types (cs : list (string * (CollectionSchema * list milvus_row))).

(** A computation that leaves the collection [name], present or not, as it
    finds it. *)
Definition keeps {A : Type} (name : string) (m : LIO A) : Prop :=
  forall s r s', m s = (r, s') ->
    lookup (collections s') name = lookup (collections s) name.

Lemma lookup_removed cs (k name : string) :
  name <> k -> lookup (remove_collection k cs) name = lookup cs name.
Proof.
  intros D. unfold remove_collection.
  induction cs as [|[n v] cs IH]; cbn [filter lookup fst]; trivial.
  destruct (n =? k)%string eqn:E; cbn [negb lookup].
  - apply String.eqb_eq in E. subst n.
    replace (name =? k)%string with false
      by (symmetry; now apply String.eqb_neq).
    exact IH.
  - now rewrite IH.
Qed.

Lemma lookup_added cs (k name : string)
  (v : CollectionSchema * list milvus_row) :
  name <> k -> lookup (cs ++ [(k, v)]) name = lookup cs name.
Proof.
  intros D. induction cs as [|[n w] cs IH]; cbn [app lookup].
  - now replace (name =? k)%string with false
      by (symmetry; now apply String.eqb_neq).
  - now rewrite IH.
Qed.

Lemma lookup_appended cs (k name : string) (data : list milvus_row) :
  name <> k -> lookup (append_rows k data cs) name = lookup cs name.
Proof.
  intros D. induction cs as [|[n [sc rows]] cs IH]; cbn [append_rows lookup];
    trivial.
  destruct (n =? k)%string eqn:E; cbn [lookup].
  - apply String.eqb_eq in E. subst n.
    now replace (name =? k)%string with false
      by (symmetry; now apply String.eqb_neq).
  - now rewrite IH.
Qed.

Lemma keeps_lret {A : Type} (name : string) (a : A) : keeps name (lret a).
Proof. now intros s r s' [= <- <-]. Qed.

Lemma keeps_lraise {A : Type} (name : string) (e : exn) :
  keeps name (@lraise _ A e).
Proof. now intros s r s' [= <- <-]. Qed.

Lemma keeps_lift {A : Type} (name : string) (x : exn + A) :
  keeps name (lift x).
Proof. now intros s r s' [= <- <-]. Qed.

Lemma keeps_log (name : string) (c : call) : keeps name (log c).
Proof. now intros s r s' [= <- <-]. Qed.

Lemma keeps_lbind {A B : Type} (name : string) (m : LIO A) (k : A -> LIO B)
  (P : A -> Prop) :
  (forall s a s', m s = (inr a, s') -> P a) ->
  keeps name m -> (forall a, P a -> keeps name (k a)) ->
  keeps name (lbind m k).
Proof.
  intros HP Hm Hk s r s' E. unfold lbind in E.
  destruct (m s) as [[e|a] s1] eqn:E1.
  - injection E as <- <-. eauto.
  - rewrite (Hk a (HP _ _ _ E1) _ _ _ E). eauto.
Qed.

Lemma keeps_seq {A B : Type} (name : string) (m : LIO A) (k : A -> LIO B) :
  keeps name m -> (forall a, keeps name (k a)) -> keeps name (lbind m k).
Proof.
  intros Hm Hk. apply (keeps_lbind name m k (fun _ => True)); auto.
Qed.

Lemma keeps_try_pass (name : string) (m : LIO unit) :
  keeps name m -> keeps name (try_pass m).
Proof.
  intros Hm s r s' E. unfold try_pass in E.
  destruct (m s) as [[e|u] s1] eqn:E1.
  - destruct e; injection E as <- <-; eauto.
  - injection E as <- <-; eauto.
Qed.

Ltac same_collections :=
  let s := fresh "s" in let r := fresh "r" in let s' := fresh "s'" in
  let E := fresh "E" in
  intros s r s' E;
  repeat match type of E with
    | context [if ?b then _ else _] => destruct b
    end;
  injection E as <- <-; cbn [collections]; trivial.

Lemma keeps_has_collection (name k : string) :
  keeps name (client_has_collection k).
Proof. unfold client_has_collection. same_collections. Qed.

Lemma keeps_list_collections (name : string) :
  keeps name client_list_collections.
Proof. unfold client_list_collections. same_collections. Qed.

Lemma keeps_create_index (name k f : string) :
  keeps name (client_create_index k f).
Proof. unfold client_create_index. same_collections. Qed.

Lemma keeps_drop_collection (name k : string) :
  name <> k -> keeps name (client_drop_collection k).
Proof.
  intros D. unfold client_drop_collection. same_collections.
  now apply lookup_removed.
Qed.

Lemma keeps_create_collection (name k : string) (schema : CollectionSchema) :
  name <> k -> keeps name (client_create_collection k schema).
Proof.
  intros D. unfold client_create_collection. same_collections.
  now apply lookup_added.
Qed.

Lemma keeps_insert (name k : string) (data : list milvus_row) :
  name <> k -> keeps name (client_insert k data).
Proof.
  intros D. unfold client_insert. same_collections.
  now apply lookup_appended.
Qed.

Lemma keeps_insert_batches (name k : string) (rows : list milvus_row) (b : Z)
  (starts : list Z) (total : Z) :
  name <> k -> keeps name (insert_batches k rows b starts total).
Proof.
  intros D. revert total.
  induction starts as [|i starts IH]; intros total; cbn [insert_batches].
  - apply keeps_lret.
  - apply keeps_seq; [now apply keeps_insert | auto].
Qed.

Lemma keeps_create_indexes (name k : string) (cols : list string) :
  keeps name (create_indexes k cols).
Proof.
  induction cols as [|c cols IH]; cbn [create_indexes].
  - apply keeps_lret.
  - apply keeps_seq; [|auto]. apply keeps_try_pass, keeps_create_index.
Qed.

Lemma keeps_load_table (name data_dir table_name prefix : string)
  (batch_size : Z) :
  name <> (prefix ++ "_" ++ table_name)%string ->
  keeps name (load_table_to_milvus data_dir table_name prefix batch_size).
Proof.
  intros D. unfold load_table_to_milvus.
  destruct (get_parquet_path data_dir table_name); [|apply keeps_lret].
  repeat first
    [ apply keeps_seq; [|intros ?]
    | apply keeps_lift
    | apply keeps_lret
    | apply keeps_has_collection
    | apply keeps_create_collection; exact D
    | apply keeps_insert_batches; exact D
    | apply keeps_log
    | match goal with
      | |- keeps _ (if ?b then _ else _) =>
          destruct b;
          [apply keeps_drop_collection; exact D | apply keeps_lret]
      | |- keeps _ (match ?o with Some _ => _ | None => _ end) =>
          destruct o; [apply keeps_create_indexes | apply keeps_lraise]
      end ].
Qed.

(** No table of [names] is stored under [name] with the prefix of [a]. *)
Definition not_a_target (a : args) (name : string) (names : list string)
  : Prop :=
  Forall (fun table => name <> (prefix a ++ "_" ++ table)%string) names.

Lemma keeps_load_tables (name : string) (a : args) (names : list string)
  (total : Z) :
  not_a_target a name names -> keeps name (load_tables a names total).
Proof.
  intros F. revert total.
  induction F as [|t names D F IH]; intros total; cbn [load_tables].
  - apply keeps_lret.
  - apply keeps_seq; [now apply keeps_load_table | auto].
Qed.

Lemma keeps_report (name prefix : string) (names : list string) :
  keeps name (report_collections prefix names).
Proof.
  induction names as [|c names IH]; cbn [report_collections].
  - apply keeps_lret.
  - apply keeps_seq; [|auto].
    destruct (String.prefix prefix c); [apply keeps_log | apply keeps_lret].
Qed.

Lemma check_tables_known (names : list string) (s s' : server) :
  check_tables names s = (inr tt, s') ->
  Forall (fun t => In t (keys TABLE_CONFIGS)) names.
Proof.
  induction names as [|t names IH]; cbn [check_tables]; [constructor|].
  destruct (contains_key TABLE_CONFIGS t) eqn:E; [|discriminate].
  intros E'. constructor; auto.
  unfold contains_key in E. apply existsb_exists in E.
  destruct E as (x & Hx & Ex). apply String.eqb_eq in Ex. now subst.
Qed.

Lemma keeps_check_tables (name : string) (names : list string) :
  keeps name (check_tables names).
Proof.
  intros s r s' E.
  destruct (check_tables_run names s) as [C|C]; rewrite C in E;
    now injection E as <- <-.
Qed.

(** X18. A run of [main] can change only the collections
    [<prefix>_<table>] of the configured tables: any collection under
    another name, for instance under another prefix, holds after the run
    what it held before, whether the run returns or ends in an exception. *)
Theorem main_changes_only_its_collections (a : args) (s : server)
  (name : string) :
  not_a_target a name (keys TABLE_CONFIGS) ->
  lookup (collections (snd (main a s))) name = lookup (collections s) name.
Proof.
  intros T. destruct (main a s) as [r s'] eqn:E. cbn [snd].
  revert s r s' E. change (keeps name (main a)). unfold main.
  destruct (path_exists (data_dir a)); cbn [negb]; [|apply keeps_lraise].
  apply (keeps_lbind name _ _ (not_a_target a name)).
  - intros s0 names s1 E. destruct (chosen_tables a) as [given|].
    + unfold lbind in E.
      destruct (check_tables given s0) as [[e|[]] s2] eqn:C; [discriminate|].
      injection E as <- <-. apply check_tables_known in C.
      unfold not_a_target in *. rewrite Forall_forall in *. auto.
    + injection E as <- <-. exact T.
  - destruct (chosen_tables a) as [given|]; [|apply keeps_lret].
    apply keeps_seq; [apply keeps_check_tables | intros; apply keeps_lret].
  - intros names F.
    apply keeps_seq; [apply keeps_log | intros _].
    apply keeps_seq; [now apply keeps_load_tables | intros _].
    apply keeps_seq; [apply keeps_list_collections | intros cols].
    apply keeps_seq; [apply keeps_report | intros _]. apply keeps_log.
Qed.

End LoaderIsolation.

Section LoaderIsolationScenario.

Import Loader LoaderFixture.

(** A server with a trip collection under the prefix [archive] besides the
    one under [spatialbench]: a full load replaces the latter only. *)
Definition two_prefixes : @server files :=
  mkServer [("archive_trip", (old_schema, [1; 2]));
            ("spatialbench_trip", (old_schema, [99; 98]))] [].

Lemma main_changes_only_its_collections_witness :
  lookup (collections (snd (main (default_args "data") two_prefixes)))
    "archive_trip"
  = Some (old_schema, [1; 2]) /\
  contents (snd (main (default_args "data") two_prefixes))
  = [("archive_trip", [1; 2]); ("spatialbench_trip", [10; 20; 30; 40; 50]);
     ("spatialbench_zone", [70])].
Proof.
  split; [|reflexivity].
  rewrite (@main_changes_only_its_collections files); [reflexivity|].
  repeat constructor; discriminate.
Defined.

End LoaderIsolationScenario.
